(** * Deck memory of the Crazyflie Python library

    A shallow embedding of [cflib/crazyflie/mem/deck_memory.py]: the binary
    info section decoder ([DeckMemory._parse],
    [DeckMemoryManager._parse_info_section]), the capability gated deck
    handle ([DeckMemory.read], [DeckMemory.write]) and the three request
    lanes of [DeckMemoryManager] (query, read, write) with the inbound entry
    points the memory handler calls back.

    Python integers are unbounded, so they are [Z]; [bytes] objects are
    [list byte]; [None]-able attributes are [option]; a raised exception is
    the [Raise] outcome of a computation, and whatever the method mutated
    before raising stays mutated. *)

From Stdlib Require Import ZArith Lia List.
From Stdlib Require Import Strings.Byte.
From stdpp Require Import base option list gmap strings pretty.

Local Open Scope Z_scope.

(** ** Exceptions and outcomes *)

(** The exceptions this module can raise. [Exception msg] is the plain
    [raise Exception(msg)] of the source; the three others come from the
    interpreter and the [struct] module. *)
Inductive exn : Type :=
| Exception (msg : string)
| TypeError
| StructError
| UnicodeDecodeError.

#[global] Instance exn_eq_dec : EqDecision exn.
Proof. solve_decision. Defined.

Inductive result (A : Type) : Type :=
| Ok (a : A)
| Raise (e : exn).
Arguments Ok {A} a.
Arguments Raise {A} e.

#[global] Instance result_ret : MRet result := λ A a, Ok a.
#[global] Instance result_bind : MBind result := λ A B f r,
  match r with
  | Ok a => f a
  | Raise e => Raise e
  end.

(** ** Python values used by the decoder *)

(** A Python [str] is a sequence of Unicode code points, a [list Z] here.
    [str_literal] gives the code points of an ASCII literal. *)
Definition str_literal (s : string) : list Z :=
  map (λ b, Z.of_N (Byte.to_N b)) (String.list_byte_of_string s).

Definition byte_val (b : byte) : Z := Z.of_N (Byte.to_N b).

(** [data[start:stop]] for [0 <= start <= stop]. *)
Definition slice (data : list byte) (start stop : nat) : list byte :=
  take (stop - start) (drop start data).

(** The two operands of the [+] in the version message. *)
Inductive PyVal : Type :=
| PyStr (s : string)
| PyInt (z : Z).

(** Python's binary [+] on [str] and [int]: concatenation, addition, and
    [TypeError] for the mixed cases. *)
Definition py_add (a b : PyVal) : result PyVal :=
  match a, b with
  | PyStr s, PyStr t => Ok (PyStr (s +:+ t))
  | PyInt x, PyInt y => Ok (PyInt (x + y))
  | _, _ => Raise TypeError
  end.

(** ** [struct.unpack] for the two formats of the module *)

(** [struct.unpack('<B', b)[0]]: exactly one byte is required. *)
Definition unpack_B (b : list byte) : result Z :=
  match b with
  | [x] => Ok (byte_val x)
  | _ => Raise StructError
  end.

Definition u32_le (b0 b1 b2 b3 : byte) : Z :=
  Z.lor (byte_val b0)
    (Z.lor (Z.shiftl (byte_val b1) 8)
       (Z.lor (Z.shiftl (byte_val b2) 16) (Z.shiftl (byte_val b3) 24))).

(** [struct.unpack('<LLL19s', b)]: exactly 4 + 4 + 4 + 19 bytes. *)
Definition unpack_LLL19s (b : list byte) : result (Z * Z * Z * list byte) :=
  match b with
  | h0 :: h1 :: h2 :: h3 :: l0 :: l1 :: l2 :: l3 :: a0 :: a1 :: a2 :: a3 :: s =>
      if decide (length s = 19%nat)
      then Ok (u32_le h0 h1 h2 h3, u32_le l0 l1 l2 l3, u32_le a0 a1 a2 a3, s)
      else Raise StructError
  | _ => Raise StructError
  end.

(** [b.split(b'\x00')[0]]: the bytes before the first NUL, all of them when
    there is none. *)
Fixpoint split_nul_first (b : list byte) : list byte :=
  match b with
  | [] => []
  | x :: r => if Byte.eqb x x00 then [] else x :: split_nul_first r
  end.

(** ** [bytes.decode()]: strict UTF-8 *)

Definition in_range (lo hi c : Z) : bool := (lo <=? c) && (c <=? hi).

(** Bounds of the second byte of a multi-byte sequence; they exclude the
    overlong forms, the surrogates and the code points above 0x10FFFF. *)
Definition second_lo (c0 : Z) : Z :=
  if c0 =? 0xE0 then 0xA0 else if c0 =? 0xF0 then 0x90 else 0x80.
Definition second_hi (c0 : Z) : Z :=
  if c0 =? 0xED then 0x9F else if c0 =? 0xF4 then 0x8F else 0xBF.

Definition cont_bits (b : byte) : Z := Z.land (byte_val b) 0x3F.

Fixpoint utf8_decode (bs : list byte) : result (list Z) :=
  match bs with
  | [] => Ok []
  | b0 :: r0 =>
      let c0 := byte_val b0 in
      if c0 <? 0x80 then
        cs ← utf8_decode r0; Ok (c0 :: cs)
      else if in_range 0xC2 0xDF c0 then
        match r0 with
        | b1 :: r1 =>
            if in_range 0x80 0xBF (byte_val b1) then
              cs ← utf8_decode r1;
              Ok (Z.lor (Z.shiftl (Z.land c0 0x1F) 6) (cont_bits b1) :: cs)
            else Raise UnicodeDecodeError
        | _ => Raise UnicodeDecodeError
        end
      else if in_range 0xE0 0xEF c0 then
        match r0 with
        | b1 :: b2 :: r2 =>
            if in_range (second_lo c0) (second_hi c0) (byte_val b1)
               && in_range 0x80 0xBF (byte_val b2) then
              cs ← utf8_decode r2;
              Ok (Z.lor (Z.shiftl (Z.land c0 0x0F) 12)
                    (Z.lor (Z.shiftl (cont_bits b1) 6) (cont_bits b2)) :: cs)
            else Raise UnicodeDecodeError
        | _ => Raise UnicodeDecodeError
        end
      else if in_range 0xF0 0xF4 c0 then
        match r0 with
        | b1 :: b2 :: b3 :: r3 =>
            if in_range (second_lo c0) (second_hi c0) (byte_val b1)
               && in_range 0x80 0xBF (byte_val b2)
               && in_range 0x80 0xBF (byte_val b3) then
              cs ← utf8_decode r3;
              Ok (Z.lor (Z.shiftl (Z.land c0 0x07) 18)
                    (Z.lor (Z.shiftl (cont_bits b1) 12)
                       (Z.lor (Z.shiftl (cont_bits b2) 6) (cont_bits b3))) :: cs)
            else Raise UnicodeDecodeError
        | _ => Raise UnicodeDecodeError
        end
      else Raise UnicodeDecodeError
  end.

(** ** class DeckMemory: attributes, flag properties, [_parse] *)

Module DeckMemory.

Definition MASK_IS_VALID : Z := 1.
Definition MASK_IS_STARTED : Z := 2.
Definition MASK_SUPPORTS_READ : Z := 4.
Definition MASK_SUPPORTS_WRITE : Z := 8.
Definition MASK_SUPPORTS_UPGRADE : Z := 16.
Definition MASK_UPGRADE_REQUIRED : Z := 32.
Definition MASK_BOOTLOADER_ACTIVE : Z := 64.

(** The attributes of a deck memory object. The back reference to the
    manager is the manager state the methods below run in. *)
Record t : Type := mk {
  required_hash : option Z;
  required_length : option Z;
  name : option (list Z);
  _base_address : option Z;
  _bit_field : Z
}.

#[global] Instance t_eq_dec : EqDecision t.
Proof. solve_decision. Defined.

(** [__init__] *)
Definition init : t :=
  {| required_hash := None; required_length := None; name := None;
     _base_address := None; _bit_field := 0 |}.

Definition flag (mask : Z) (self : t) : bool :=
  negb (Z.land (_bit_field self) mask =? 0).

Definition is_valid : t → bool := flag MASK_IS_VALID.
Definition is_started : t → bool := flag MASK_IS_STARTED.
Definition supports_read : t → bool := flag MASK_SUPPORTS_READ.
Definition supports_write : t → bool := flag MASK_SUPPORTS_WRITE.
Definition supports_fw_upgrade : t → bool := flag MASK_SUPPORTS_UPGRADE.
Definition is_fw_upgrade_required : t → bool := flag MASK_UPGRADE_REQUIRED.
Definition is_bootloader_active : t → bool := flag MASK_BOOTLOADER_ACTIVE.

Definition set_bit_field (bf : Z) (self : t) : t :=
  {| required_hash := required_hash self;
     required_length := required_length self;
     name := name self;
     _base_address := _base_address self;
     _bit_field := bf |}.

(** [_parse(self, data)]: returns the object after the assignments. *)
Definition _parse (self : t) (data : list byte) : result t :=
  bf ← unpack_B (slice data 0 1);
  let self := set_bit_field bf self in
  if is_valid self then
    '(h, l, a, _name) ← unpack_LLL19s (drop 1 data);
    nm ← utf8_decode (split_nul_first _name);
    Ok {| required_hash := Some h; required_length := Some l;
          name := Some nm; _base_address := Some a;
          _bit_field := _bit_field self |}
  else Ok self.

End DeckMemory.

(** ** class DeckMemoryManager *)

Module DeckMemoryManager.

Definition MAX_NR_OF_DECKS : nat := 4.
Definition SIZE_OF_DECK_MEM_INFO : nat := 32.
Definition SIZE_OF_VERSION : nat := 1.
Definition SIZE_OF_INFO_SECTION : nat :=
  (SIZE_OF_VERSION + MAX_NR_OF_DECKS * SIZE_OF_DECK_MEM_INFO)%nat.
Definition INFO_SECTION_ADDRESS : Z := 0.
Definition SUPPORTED_VERSION : Z := 1.

(** A callback the caller hands in is known by an identifier; [None] is
    Python's [None]. *)
Definition callback : Type := nat.

(** What a callback is applied to. *)
Inductive call_args : Type :=
| ArgsDecks (decks : gmap nat DeckMemory.t)
| ArgsAddrData (addr : Z) (data : list byte)
| ArgsAddr (addr : Z).

(** What a method does to the outside: calls of the memory handler, of a
    stored callback, and of the logger. *)
Inductive effect : Type :=
| MemRead (addr : Z) (length : Z)
| MemWrite (addr : Z) (data : list byte) (flush_queue : bool)
| Call (cb : callback) (args : call_args)
| LogError (msg : string)
| LogDebug (msg : string).

(** The attributes of the manager. The two base addresses start as the
    integer 0 and hold whatever a handle passes, which is [None] for a
    handle whose [_base_address] was never assigned. *)
Record t : Type := mk {
  id : Z;
  _query_complete_cb : option callback;
  deck_memories : gmap nat DeckMemory.t;
  _read_complete_cb : option callback;
  _read_failed_cb : option callback;
  _read_base_address : option Z;
  _write_complete_cb : option callback;
  _write_failed_cb : option callback;
  _write_base_address : option Z
}.

(** [__init__] *)
Definition init (id : Z) : t :=
  {| id := id;
     _query_complete_cb := None;
     deck_memories := ∅;
     _read_complete_cb := None;
     _read_failed_cb := None;
     _read_base_address := Some 0;
     _write_complete_cb := None;
     _write_failed_cb := None;
     _write_base_address := Some 0 |}.

(** Attribute assignments. *)
Definition set_query_complete_cb (v : option callback) (s : t) : t :=
  mk (id s) v (deck_memories s)
     (_read_complete_cb s) (_read_failed_cb s) (_read_base_address s)
     (_write_complete_cb s) (_write_failed_cb s) (_write_base_address s).
Definition set_deck_memories (v : gmap nat DeckMemory.t) (s : t) : t :=
  mk (id s) (_query_complete_cb s) v
     (_read_complete_cb s) (_read_failed_cb s) (_read_base_address s)
     (_write_complete_cb s) (_write_failed_cb s) (_write_base_address s).
Definition set_read_complete_cb (v : option callback) (s : t) : t :=
  mk (id s) (_query_complete_cb s) (deck_memories s)
     v (_read_failed_cb s) (_read_base_address s)
     (_write_complete_cb s) (_write_failed_cb s) (_write_base_address s).
Definition set_read_failed_cb (v : option callback) (s : t) : t :=
  mk (id s) (_query_complete_cb s) (deck_memories s)
     (_read_complete_cb s) v (_read_base_address s)
     (_write_complete_cb s) (_write_failed_cb s) (_write_base_address s).
Definition set_read_base_address (v : option Z) (s : t) : t :=
  mk (id s) (_query_complete_cb s) (deck_memories s)
     (_read_complete_cb s) (_read_failed_cb s) v
     (_write_complete_cb s) (_write_failed_cb s) (_write_base_address s).
Definition set_write_complete_cb (v : option callback) (s : t) : t :=
  mk (id s) (_query_complete_cb s) (deck_memories s)
     (_read_complete_cb s) (_read_failed_cb s) (_read_base_address s)
     v (_write_failed_cb s) (_write_base_address s).
Definition set_write_failed_cb (v : option callback) (s : t) : t :=
  mk (id s) (_query_complete_cb s) (deck_memories s)
     (_read_complete_cb s) (_read_failed_cb s) (_read_base_address s)
     (_write_complete_cb s) v (_write_base_address s).
Definition set_write_base_address (v : option Z) (s : t) : t :=
  mk (id s) (_query_complete_cb s) (deck_memories s)
     (_read_complete_cb s) (_read_failed_cb s) (_read_base_address s)
     (_write_complete_cb s) (_write_failed_cb s) v.

(** *** The monad of a method body

    A method runs on the manager's attributes, appends to the list of
    effects and either returns or raises. Attributes assigned and effects
    emitted before a [raise] are kept. *)
Definition M (A : Type) : Type := t → t * list effect * result A.

#[global] Instance M_ret : MRet M := λ A a s, (s, [], Ok a).
#[global] Instance M_bind : MBind M := λ A B f m s,
  match m s with
  | (s1, out1, Ok a) => let '(s2, out2, r) := f a s1 in (s2, out1 ++ out2, r)
  | (s1, out1, Raise e) => (s1, out1, Raise e)
  end.

Definition raise {A} (e : exn) : M A := λ s, (s, [], Raise e).
Definition lift {A} (r : result A) : M A := λ s, (s, [], r).
Definition get : M t := λ s, (s, [], Ok s).
Definition assign (f : t → t) : M unit := λ s, (f s, [], Ok tt).
Definition emit (e : effect) : M unit := λ s, (s, [e], Ok tt).

(** Applying a value that may be [None]: calling [None] is a [TypeError]. *)
Definition call (f : option callback) (args : call_args) : M unit :=
  match f with
  | Some cb => emit (Call cb args)
  | None => raise TypeError
  end.

(** [a + b] and [a - b] for an integer [a] and a [b] that may be [None]. *)
Definition int_add (a : Z) (b : option Z) : result Z :=
  match b with
  | Some b => Ok (a + b)
  | None => Raise TypeError
  end.
Definition int_sub (a : Z) (b : option Z) : result Z :=
  match b with
  | Some b => Ok (a - b)
  | None => Raise TypeError
  end.

(** [logger.error(v)] *)
Definition logger_error (v : PyVal) : M unit :=
  match v with
  | PyStr s => emit (LogError s)
  | PyInt z => emit (LogError (pretty z))
  end.

Definition _clear_query_cb : M unit := assign (set_query_complete_cb None).

Definition _clear_read_cb : M unit :=
  assign (set_read_complete_cb None);;
  assign (set_read_failed_cb None).

Definition _clear_write_cb : M unit :=
  assign (set_write_complete_cb None);;
  assign (set_write_failed_cb None).

(** The [for i in range(...)] loop of [_parse_info_section], over the
    indexes still to visit and the dictionary [result] built so far. *)
Fixpoint parse_decks (data : list byte) (indexes : list nat)
    (res : gmap nat DeckMemory.t) : result (gmap nat DeckMemory.t) :=
  match indexes with
  | [] => Ok res
  | i :: rest =>
      let start := (SIZE_OF_VERSION + SIZE_OF_DECK_MEM_INFO * i)%nat in
      let stop := (start + SIZE_OF_DECK_MEM_INFO)%nat in
      deck_memory ← DeckMemory._parse DeckMemory.init (slice data start stop);
      parse_decks data rest
        (if DeckMemory.is_valid deck_memory
         then <[i := deck_memory]> res else res)
  end.

Definition _parse_info_section (data : list byte)
    : M (gmap nat DeckMemory.t) :=
  version ← lift (unpack_B (slice data 0 1));
  if decide (version ≠ SUPPORTED_VERSION) then
    s1 ← lift (py_add (PyStr "Version ") (PyInt version));
    s2 ← lift (py_add s1 (PyStr " not supported"));
    logger_error s2;;
    mret ∅
  else
    lift (parse_decks data (seq 0 MAX_NR_OF_DECKS) ∅).

Definition query_decks (query_complete_cb : option callback) : M unit :=
  self ← get;
  if decide (_query_complete_cb self ≠ None) then
    raise (Exception "Query ongoing")
  else
    assign (set_deck_memories ∅);;
    assign (set_query_complete_cb query_complete_cb);;
    emit (MemRead INFO_SECTION_ADDRESS (Z.of_nat SIZE_OF_INFO_SECTION)).

Definition _read (base_address : option Z) (address length : Z)
    (read_complete_cb read_failed_cb : option callback) : M unit :=
  self ← get;
  if decide (_read_complete_cb self ≠ None) then
    raise (Exception "Read operation ongoing")
  else
    assign (set_read_base_address base_address);;
    assign (set_read_complete_cb read_complete_cb);;
    assign (set_read_failed_cb read_failed_cb);;
    self ← get;
    mapped_address ← lift (int_add address (_read_base_address self));
    emit (MemRead mapped_address length).

Definition _new_data (mem_id addr : Z) (data : list byte) : M unit :=
  self ← get;
  if decide (mem_id = id self) then
    if decide (addr = INFO_SECTION_ADDRESS) then
      decks ← _parse_info_section data;
      assign (set_deck_memories decks);;
      self ← get;
      let tmp_cb := _query_complete_cb self in
      _clear_query_cb;;
      self ← get;
      call tmp_cb (ArgsDecks (deck_memories self))
    else
      let tmp_cb := _read_complete_cb self in
      _clear_read_cb;;
      self ← get;
      rel ← lift (int_sub addr (_read_base_address self));
      call tmp_cb (ArgsAddrData rel data)
  else mret tt.

Definition _new_data_failed (mem_id addr : Z) (data : list byte) : M unit :=
  self ← get;
  if decide (mem_id = id self) then
    if decide (addr = INFO_SECTION_ADDRESS) then
      _clear_query_cb;;
      emit (LogError "Deck memory query failed")
    else
      let tmp_cb := _read_failed_cb self in
      _clear_read_cb;;
      if decide (tmp_cb ≠ None) then
        self ← get;
        rel ← lift (int_sub addr (_read_base_address self));
        call tmp_cb (ArgsAddr rel)
      else
        emit (LogError ("Deck memory read failed, addr: " +:+ pretty addr))
  else mret tt.

Definition _write (base_address : option Z) (address : Z) (data : list byte)
    (read_complete_cb read_failed_cb : option callback) : M unit :=
  self ← get;
  if decide (_write_complete_cb self ≠ None) then
    raise (Exception "Write operation ongoing")
  else
    assign (set_write_base_address base_address);;
    assign (set_write_complete_cb read_complete_cb);;
    assign (set_write_failed_cb read_failed_cb);;
    self ← get;
    mapped_address ← lift (int_add address (_write_base_address self));
    emit (MemWrite mapped_address data true).

Definition _write_done (mem_id addr : Z) : M unit :=
  self ← get;
  if decide (mem_id = id self) then
    emit (LogDebug "Write data done");;
    let tmp_cb := _write_complete_cb self in
    _clear_write_cb;;
    self ← get;
    rel ← lift (int_sub addr (_read_base_address self));
    call tmp_cb (ArgsAddr rel)
  else mret tt.

Definition _write_failed (mem_id addr : Z) : M unit :=
  self ← get;
  if decide (mem_id = id self) then
    emit (LogDebug "Write failed");;
    let tmp_cb := _write_failed_cb self in
    _clear_write_cb;;
    self ← get;
    rel ← lift (int_sub addr (_read_base_address self));
    call tmp_cb (ArgsAddr rel)
  else mret tt.

Definition disconnect : M unit :=
  _clear_query_cb;;
  _clear_read_cb;;
  _clear_write_cb;;
  assign (set_deck_memories ∅).

End DeckMemoryManager.

(** ** class DeckMemory, continued: [read] and [write]

    The two methods forward to the manager, so they come after it. *)

Module DeckMemoryHandle.
Import DeckMemoryManager.

Definition write (self : DeckMemory.t) (address : Z) (data : list byte)
    (write_complete_cb write_failed_cb : option callback) : M unit :=
  if negb (DeckMemory.supports_write self) then
    raise (Exception "Deck does not support write operations")
  else if negb (DeckMemory.is_started self) then
    raise (Exception "Deck not ready")
  else
    _write (DeckMemory._base_address self) address data
      write_complete_cb write_failed_cb.

Definition read (self : DeckMemory.t) (address length : Z)
    (read_complete_cb read_failed_cb : option callback) : M unit :=
  if negb (DeckMemory.supports_read self) then
    raise (Exception "Deck does not support read operations")
  else if negb (DeckMemory.is_started self) then
    raise (Exception "Deck not ready")
  else
    _read (DeckMemory._base_address self) address length
      read_complete_cb read_failed_cb.

End DeckMemoryHandle.

(** ** The manager as a machine driven by its callers

    The caller and the memory handler drive the manager one method call at
    a time. A callback the manager invokes is always the last thing a method
    does, after the lane was cleared, so whatever the callback calls back
    into the manager is a later event of the same sequence. *)

Module Machine.
Import DeckMemoryManager.

Inductive event : Type :=
| QueryDecks (query_complete_cb : option callback)
| Read (base_address : option Z) (address length : Z)
    (read_complete_cb read_failed_cb : option callback)
| Write (base_address : option Z) (address : Z) (data : list byte)
    (write_complete_cb write_failed_cb : option callback)
| HandleRead (deck : DeckMemory.t) (address length : Z)
    (read_complete_cb read_failed_cb : option callback)
| HandleWrite (deck : DeckMemory.t) (address : Z) (data : list byte)
    (write_complete_cb write_failed_cb : option callback)
| NewData (mem_id addr : Z) (data : list byte)
| NewDataFailed (mem_id addr : Z) (data : list byte)
| WriteDone (mem_id addr : Z)
| WriteFailed (mem_id addr : Z)
| Disconnect.

Definition step (e : event) : M unit :=
  match e with
  | QueryDecks cb => query_decks cb
  | Read b a l ccb fcb => _read b a l ccb fcb
  | Write b a d ccb fcb => _write b a d ccb fcb
  | HandleRead deck a l ccb fcb => DeckMemoryHandle.read deck a l ccb fcb
  | HandleWrite deck a d ccb fcb => DeckMemoryHandle.write deck a d ccb fcb
  | NewData m a d => _new_data m a d
  | NewDataFailed m a d => _new_data_failed m a d
  | WriteDone m a => _write_done m a
  | WriteFailed m a => _write_failed m a
  | Disconnect => disconnect
  end.

(** Running a sequence of calls. A call that raises leaves its exception
    with its caller; the manager goes on from the attributes it has then. *)
Fixpoint run (es : list event) (s : t) : t * list effect :=
  match es with
  | [] => (s, [])
  | e :: rest =>
      let '(s1, out1, _) := step e s in
      let '(s2, out2) := run rest s1 in
      (s2, out1 ++ out2)
  end.

End Machine.

(** ** Example buffers *)

(** The info section of one Lighthouse deck in slot 0: version 1, flags
    0b00001111, hash 0xAABBCCDD, length 1024, base address 0x2000, the name
    NUL padded to 19 bytes, and three empty slots. *)
Definition lighthouse_section : list byte :=
  [x01; x0f;
   xdd; xcc; xbb; xaa;
   x00; x04; x00; x00;
   x00; x20; x00; x00]
  ++ String.list_byte_of_string "bcLighthouse4" ++ replicate 6 x00
  ++ replicate 96 x00.

(** An all-zero buffer of the info section size: version byte 0. *)
Definition zero_section : list byte := replicate 129 x00.

(** A name field with bytes after its first NUL. *)
Definition abc_name_field : list byte :=
  String.list_byte_of_string "abc" ++ [x00]
  ++ String.list_byte_of_string "xyz" ++ replicate 12 x00.

(** ** Vocabulary of the decoder claims *)

(** The only exception a computation may end in. *)
Definition raises_at_most {A} (e0 : exn) (r : result A) : Prop :=
  match r with
  | Ok _ => True
  | Raise e => e = e0
  end.

(** ** Vocabulary of the lane claims *)

Module Lanes.
Import DeckMemoryManager Machine.

Inductive lane : Type := QueryLane | ReadLane | WriteLane.

(** A lane is occupied when its stored completion callback is not [None];
    that is the one test the three request methods make. *)
Definition complete_cb (l : lane) (s : t) : option callback :=
  match l with
  | QueryLane => _query_complete_cb s
  | ReadLane => _read_complete_cb s
  | WriteLane => _write_complete_cb s
  end.

(** The event is a request that reaches the lane: a call of the manager's
    request method, or of a handle that passes its two gates. *)
Definition requests (l : lane) (e : event) : bool :=
  match l, e with
  | QueryLane, QueryDecks _ => true
  | ReadLane, Read _ _ _ _ _ => true
  | ReadLane, HandleRead deck _ _ _ _ =>
      DeckMemory.supports_read deck && DeckMemory.is_started deck
  | WriteLane, Write _ _ _ _ _ => true
  | WriteLane, HandleWrite deck _ _ _ _ =>
      DeckMemory.supports_write deck && DeckMemory.is_started deck
  | _, _ => false
  end.

(** The exception a busy lane answers with. *)
Definition ConcurrentOperationError (l : lane) : exn :=
  match l with
  | QueryLane => Exception "Query ongoing"
  | ReadLane => Exception "Read operation ongoing"
  | WriteLane => Exception "Write operation ongoing"
  end.

(** The two exceptions of a handle's gates. *)
Definition CapabilityUnsupportedError_read : exn :=
  Exception "Deck does not support read operations".
Definition NotReadyError : exn := Exception "Deck not ready".

(** The event hands the callback [c] to the manager. *)
Definition supplies (c : callback) (e : event) : bool :=
  match e with
  | QueryDecks cb => bool_decide (cb = Some c)
  | Read _ _ _ ccb fcb | Write _ _ _ ccb fcb
  | HandleRead _ _ _ ccb fcb | HandleWrite _ _ _ ccb fcb =>
      bool_decide (ccb = Some c) || bool_decide (fcb = Some c)
  | _ => false
  end.

(** The callback [c] sits in none of the five callback attributes. *)
Definition unstored (c : callback) (s : t) : Prop :=
  _query_complete_cb s ≠ Some c
  ∧ _read_complete_cb s ≠ Some c ∧ _read_failed_cb s ≠ Some c
  ∧ _write_complete_cb s ≠ Some c ∧ _write_failed_cb s ≠ Some c.

(** A read with completion callback [cb] and base address [B] is in flight
    on the manager with identifier [self_id]. *)
Definition read_in_flight (self_id : Z) (cb : callback) (B : Z) (s : t) : Prop :=
  id s = self_id
  ∧ _read_complete_cb s = Some cb
  ∧ _read_base_address s = Some B.

(** The event neither resolves nor aborts a read in flight: it is not a
    disconnect and not a delivery for this manager at an address other than
    the info section's. *)
Definition read_lane_quiet (self_id : Z) (e : event) : bool :=
  match e with
  | Disconnect => false
  | NewData m a _ | NewDataFailed m a _ =>
      negb (bool_decide (m = self_id))
      || bool_decide (a = INFO_SECTION_ADDRESS)
  | _ => true
  end.

(** The round trip of a read through a handle: the request goes out at
    base plus relative address, and after the events [es] the delivery of
    [data] at that address calls the completion callback with the relative
    address and the data, and leaves the read lane idle. *)
Definition read_round_trip (s : t) (deck : DeckMemory.t) (R len : Z)
    (cb : callback) (fcb : option callback) (es : list event)
    (data : list byte) : Prop :=
  ∃ B s1 s3,
    DeckMemory._base_address deck = Some B
    ∧ step (HandleRead deck R len (Some cb) fcb) s
      = (s1, [MemRead (B + R) len], Ok tt)
    ∧ step (NewData (id s) (B + R) data) (run es s1).1
      = (s3, [Call cb (ArgsAddrData R data)], Ok tt)
    ∧ _read_complete_cb s3 = None.

End Lanes.

(** ** Vocabulary of the further lane properties *)

Module Deliveries.
Import DeckMemoryManager Machine.

(** The events that can assign [deck_memories]: a query request, a
    disconnect, and a data delivery for this manager at the info section
    address. *)
Definition may_assign_deck_map (self_id : Z) (e : event) : bool :=
  match e with
  | QueryDecks _ | Disconnect => true
  | NewData m a _ =>
      bool_decide (m = self_id) && bool_decide (a = INFO_SECTION_ADDRESS)
  | _ => false
  end.

(** The event neither resolves nor aborts a query in flight: it is not a
    disconnect and not a delivery for this manager at the info section
    address. *)
Definition query_lane_quiet (self_id : Z) (e : event) : bool :=
  match e with
  | Disconnect => false
  | NewData m a _ | NewDataFailed m a _ =>
      negb (bool_decide (m = self_id))
      || negb (bool_decide (a = INFO_SECTION_ADDRESS))
  | _ => true
  end.

(** A query with completion callback [cb] is in flight on the manager with
    identifier [self_id]. *)
Definition query_in_flight (self_id : Z) (cb : callback) (s : t) : Prop :=
  id s = self_id ∧ _query_complete_cb s = Some cb.

(** The number of calls of the callback [c] among the effects. *)
Definition is_call_of (c : callback) (e : effect) : bool :=
  match e with
  | Call c' _ => bool_decide (c' = c)
  | _ => false
  end.
Definition calls_of (c : callback) (out : list effect) : nat :=
  length (List.filter (is_call_of c) out).

(** The callback [c] is the read lane's completion callback and sits in no
    other callback attribute. *)
Definition only_read_complete (c : callback) (s : t) : Prop :=
  _query_complete_cb s ≠ Some c
  ∧ _read_complete_cb s = Some c ∧ _read_failed_cb s ≠ Some c
  ∧ _write_complete_cb s ≠ Some c ∧ _write_failed_cb s ≠ Some c.

End Deliveries.

(** ** Vocabulary of the layout properties *)

Module Layout.
Import DeckMemoryManager.

(** Offset of slot [i] in the info section. *)
Definition slot_start (i : nat) : nat :=
  (SIZE_OF_VERSION + SIZE_OF_DECK_MEM_INFO * i)%nat.

(** The number a byte string denotes, least significant byte first. *)
Definition le_value (bs : list byte) : Z :=
  foldr (λ b acc, byte_val b + 256 * acc) 0 bs.

(** The bytes [a] to [b] of slot [i], counted from the start of the slot. *)
Definition field (data : list byte) (i a b : nat) : list byte :=
  slice data (slot_start i + a) (slot_start i + b).

(** The entry the layout gives index [i]: none outside the four slots, none
    when bit 0 of the slot's first byte is clear, and else the three
    little-endian words at offsets 1, 5 and 9 and the name at offset 13. *)
Definition slot_descriptor (data : list byte) (i : nat)
    : option DeckMemory.t :=
  if decide (i < MAX_NR_OF_DECKS)%nat then
    if Z.testbit (le_value (field data i 0 1)) 0 then
      match utf8_decode (split_nul_first (field data i 13 32)) with
      | Ok nm =>
          Some {| DeckMemory.required_hash := Some (le_value (field data i 1 5));
                  DeckMemory.required_length := Some (le_value (field data i 5 9));
                  DeckMemory.name := Some nm;
                  DeckMemory._base_address := Some (le_value (field data i 9 13));
                  DeckMemory._bit_field := le_value (field data i 0 1) |}
      | Raise _ => None
      end
    else None
  else None.

End Layout.

(** * Properties *)

Section Decoder.
Import DeckMemoryManager.

(** The decoder reads nothing of the manager and writes nothing: its
    outcome is a function of the buffer, and it logs nothing, because the
    only logging statement sits behind an expression that raises. *)
Lemma parse_info_section_pure (data : list byte) :
  ∃ r, ∀ s, _parse_info_section data s = (s, [], r).
Proof.
  unfold _parse_info_section, lift, mbind, M_bind.
  destruct (unpack_B (slice data 0 1)) as [version|e].
  - case_decide.
    + exists (Raise TypeError). intros s. reflexivity.
    + eexists. intros s. reflexivity.
  - exists (Raise e). intros s. reflexivity.
Qed.

(** Any version byte other than the supported one makes the decoder raise
    [TypeError]: the message is built by adding an [int] to a [str]. *)
Lemma parse_info_section_version_mismatch (data : list byte) (v : byte) (s : t) :
  data !! 0%nat = Some v →
  byte_val v ≠ SUPPORTED_VERSION →
  _parse_info_section data s = (s, [], Raise TypeError).
Proof.
  intros Hv Hne. destruct data as [|b rest]; [discriminate|].
  injection Hv as ->.
  unfold _parse_info_section, lift, mbind, M_bind, slice. cbn.
  rewrite take_0. cbn. case_decide; [reflexivity | contradiction].
Qed.

(** The name stops at the first NUL byte of its 19-byte field. *)
Example name_stops_at_first_nul :
  length abc_name_field = 19%nat
  ∧ utf8_decode (split_nul_first abc_name_field) = Ok (str_literal "abc").
Proof. split; reflexivity. Qed.

End Decoder.

Section DecoderClaims.
Import DeckMemoryManager Machine.

(** C1 (the code departs from the claim). The claim: a buffer whose version
    byte is not 1 decodes to the empty mapping with a reported decode error,
    and decoding never raises. The code, on the all-zero buffer of the info
    section size: the decoder raises [TypeError] and logs nothing; and when
    that buffer answers a query, the exception leaves [_new_data] before the
    deck map is assigned, the query lane is cleared or the callback runs. *)
Theorem parse_info_section_bad_version_raises :
  length zero_section = SIZE_OF_INFO_SECTION
  ∧ (∀ s, _parse_info_section zero_section s = (s, [], Raise TypeError))
  ∧ step (NewData 7 INFO_SECTION_ADDRESS zero_section)
      (set_query_complete_cb (Some 1%nat) (init 7))
    = (set_query_complete_cb (Some 1%nat) (init 7), [], Raise TypeError).
Proof.
  split; [reflexivity|]. split.
  - intros s. apply (parse_info_section_version_mismatch _ x00); [reflexivity|].
    discriminate.
  - reflexivity.
Qed.

(** C7. Decoding the 129-byte section of the Lighthouse deck gives exactly
    the one-entry mapping at index 0 with base address 0x2000, hash
    0xAABBCCDD, length 1024, the name cut at its first NUL byte, and the
    four flags valid, started, supports-read and supports-write set. *)
Theorem parse_info_section_lighthouse :
  let deck :=
    {| DeckMemory.required_hash := Some 0xAABBCCDD;
       DeckMemory.required_length := Some 1024;
       DeckMemory.name := Some (str_literal "bcLighthouse4");
       DeckMemory._base_address := Some 0x2000;
       DeckMemory._bit_field := 0x0F |} in
  length lighthouse_section = 129%nat
  ∧ (∀ s, _parse_info_section lighthouse_section s
          = (s, [], Ok {[ 0%nat := deck ]}))
  ∧ DeckMemory.supports_read deck = true
  ∧ DeckMemory.supports_write deck = true
  ∧ DeckMemory.is_valid deck = true
  ∧ DeckMemory.is_started deck = true
  ∧ split_nul_first (drop 14 (take 33 lighthouse_section))
    = String.list_byte_of_string "bcLighthouse4".
Proof.
  cbv zeta. split; [reflexivity|]. split.
  - intros s. vm_compute. reflexivity.
  - repeat split; reflexivity.
Qed.

End DecoderClaims.

(** ** Slots whose valid bit is clear *)

Section InvalidSlots.
Import DeckMemoryManager.

Lemma raises_at_most_bind {A B} e0 (m : result A) (f : A → result B) :
  raises_at_most e0 m → (∀ a, raises_at_most e0 (f a)) →
  raises_at_most e0 (m ≫= f).
Proof. destruct m as [a|e]; simpl; auto. Qed.

Lemma utf8_decode_raises_le (n : nat) (bs : list byte) :
  (length bs ≤ n)%nat → raises_at_most UnicodeDecodeError (utf8_decode bs).
Proof.
  revert bs. induction n as [|n IH]; intros bs Hlen.
  - destruct bs; [exact I | simpl in Hlen; lia].
  - destruct bs as [|b0 r0]; [exact I|].
    simpl in Hlen. simpl.
    repeat case_match; try reflexivity;
      (apply raises_at_most_bind; [apply IH; simpl in *; lia | intros; exact I]).
Qed.

Lemma utf8_decode_raises (bs : list byte) :
  raises_at_most UnicodeDecodeError (utf8_decode bs).
Proof. apply (utf8_decode_raises_le (length bs)). lia. Qed.

Lemma valid_bit_land (a : Z) :
  Z.testbit a 0 = false ↔ Z.land a DeckMemory.MASK_IS_VALID = 0.
Proof.
  unfold DeckMemory.MASK_IS_VALID.
  change 1 with (Z.ones 1). rewrite Z.land_ones by lia.
  rewrite Z.bit0_odd. change (2 ^ 1) with 2. rewrite Zmod_odd.
  destruct (Z.odd a); split; congruence.
Qed.

(** A slot of the full slot size either parses, keeping its flag byte, or
    has the valid bit set and a name that is not UTF-8. *)
Lemma parse_slot_outcome (flags : byte) (rest : list byte) :
  length rest = 31%nat →
  match DeckMemory._parse DeckMemory.init (flags :: rest) with
  | Ok d => DeckMemory._bit_field d = byte_val flags
  | Raise e => e = UnicodeDecodeError
  end.
Proof.
  intros Hlen. unfold DeckMemory._parse, slice.
  cbn [drop Nat.sub take unpack_B]. rewrite take_0, drop_0.
  cbn [mbind result_bind].
  destruct (DeckMemory.is_valid _); [|reflexivity].
  do 12 (destruct rest as [|? rest]; [discriminate Hlen|]).
  simpl in Hlen. unfold unpack_LLL19s.
  destruct (decide (length rest = 19%nat)) as [_|Hne]; [|lia].
  cbn [mbind result_bind].
  pose proof (utf8_decode_raises (split_nul_first rest)) as Hu.
  destruct (utf8_decode (split_nul_first rest)); simpl in *; auto.
Qed.

Lemma slice_slot (data : list byte) (i : nat) :
  length data = SIZE_OF_INFO_SECTION → (i < MAX_NR_OF_DECKS)%nat →
  ∃ flags rest,
    data !! (SIZE_OF_VERSION + SIZE_OF_DECK_MEM_INFO * i)%nat = Some flags
    ∧ length rest = 31%nat
    ∧ slice data (SIZE_OF_VERSION + SIZE_OF_DECK_MEM_INFO * i)
        (SIZE_OF_VERSION + SIZE_OF_DECK_MEM_INFO * i + SIZE_OF_DECK_MEM_INFO)
      = flags :: rest.
Proof.
  unfold SIZE_OF_INFO_SECTION, SIZE_OF_VERSION, SIZE_OF_DECK_MEM_INFO,
    MAX_NR_OF_DECKS, slice.
  intros Hlen Hi.
  set (start := (1 + 32 * i)%nat).
  replace (start + 32 - start)%nat with 32%nat by lia.
  destruct (drop start data) as [|flags rest] eqn:Hdrop.
  - apply (f_equal length) in Hdrop. rewrite length_drop in Hdrop.
    simpl in Hdrop. lia.
  - exists flags, (take 31 rest). split; [|split].
    + rewrite <- (Nat.add_0_r start), <- lookup_drop, Hdrop. reflexivity.
    + apply (f_equal length) in Hdrop. rewrite length_drop in Hdrop.
      simpl in Hdrop. rewrite length_take. lia.
    + reflexivity.
Qed.

(** The loop leaves the entry of every index whose slot has the valid bit
    clear as it found it, and raises nothing but [UnicodeDecodeError]. *)
Lemma parse_decks_invalid (data : list byte) :
  length data = SIZE_OF_INFO_SECTION →
  ∀ (indexes : list nat) (acc : gmap nat DeckMemory.t),
    Forall (λ i, (i < MAX_NR_OF_DECKS)%nat) indexes →
    match parse_decks data indexes acc with
    | Ok decks =>
        ∀ k flags,
          data !! (SIZE_OF_VERSION + SIZE_OF_DECK_MEM_INFO * k)%nat = Some flags →
          Z.testbit (byte_val flags) 0 = false →
          decks !! k = acc !! k
    | Raise e => e = UnicodeDecodeError
    end.
Proof.
  intros Hlen indexes. induction indexes as [|i rest IH]; intros acc Hall.
  - simpl. auto.
  - apply Forall_cons in Hall as [Hi Hall].
    destruct (slice_slot data i Hlen Hi) as (fi & tl & Hfi & Htl & Hslice).
    cbn [parse_decks]. rewrite Hslice.
    pose proof (parse_slot_outcome fi tl Htl) as Hslot.
    destruct (DeckMemory._parse DeckMemory.init (fi :: tl)) as [d|e];
      cbn [mbind result_bind]; [|exact Hslot].
    specialize (IH (if DeckMemory.is_valid d then <[i:=d]> acc else acc) Hall).
    destruct (parse_decks data rest _) as [decks|e]; [|exact IH].
    intros k flags Hk Hbit. rewrite (IH k flags Hk Hbit).
    destruct (DeckMemory.is_valid d) eqn:Hvalid; [|reflexivity].
    apply lookup_insert_ne. intros ->.
    rewrite Hfi in Hk. injection Hk as ->.
    apply valid_bit_land in Hbit.
    unfold DeckMemory.is_valid, DeckMemory.flag in Hvalid.
    rewrite Hslot, Hbit in Hvalid. discriminate.
Qed.

(** C6. In a buffer of the info section size with the supported version
    byte, a slot [i] whose flag byte has bit 0 clear gets no entry in the
    decoded mapping, whatever the other bytes of the buffer are; the decoder
    returns that mapping unless a slot with the valid bit set carries a name
    that is not UTF-8, the one case in which it raises. *)
Theorem invalid_slot_has_no_entry
    (data : list byte) (i : nat) (flags : byte) (s : t) :
  length data = SIZE_OF_INFO_SECTION →
  byte_val <$> data !! 0%nat = Some SUPPORTED_VERSION →
  (i < MAX_NR_OF_DECKS)%nat →
  data !! (SIZE_OF_VERSION + SIZE_OF_DECK_MEM_INFO * i)%nat = Some flags →
  Z.testbit (byte_val flags) 0 = false →
  match _parse_info_section data s with
  | (_, _, Ok decks) => decks !! i = None
  | (_, _, Raise e) => e = UnicodeDecodeError
  end.
Proof.
  intros Hlen Hver Hi Hflags Hbit.
  destruct data as [|v rest]; [discriminate Hlen|].
  injection Hver as Hver.
  unfold _parse_info_section, lift, mbind, M_bind, slice.
  cbn [drop Nat.sub take unpack_B]. rewrite take_0, Hver.
  destruct (decide (SUPPORTED_VERSION ≠ SUPPORTED_VERSION)) as [Hne|_];
    [contradiction|].
  pose proof (parse_decks_invalid (v :: rest) Hlen (seq 0 MAX_NR_OF_DECKS) ∅)
    as Hloop.
  destruct (parse_decks (v :: rest) (seq 0 MAX_NR_OF_DECKS) ∅) as [decks|e].
  - rewrite (Hloop ltac:(repeat constructor) i flags Hflags Hbit).
    apply lookup_empty.
  - apply Hloop. repeat constructor.
Qed.

Lemma invalid_slot_has_no_entry_witness :
  ∃ decks, _parse_info_section lighthouse_section (init 7) = (init 7, [], Ok decks)
           ∧ decks !! 2%nat = None.
Proof.
  pose proof (invalid_slot_has_no_entry lighthouse_section 2 x00 (init 7)
                eq_refl eq_refl ltac:(vm_compute; lia) eq_refl eq_refl) as H.
  destruct (_parse_info_section lighthouse_section (init 7))
    as [[s out] [decks|e]] eqn:E.
  - exists decks. vm_compute in E. injection E as <- <- <-.
    split; [reflexivity | exact H].
  - vm_compute in E. discriminate E.
Defined.

End InvalidSlots.

(** ** The lanes *)

Section LaneClaims.
Import DeckMemoryManager Machine Lanes.

(** Unfolds a method call on a destructed manager and splits on the tests
    it makes. *)
Ltac run_method :=
  unfold step, DeckMemoryHandle.read, DeckMemoryHandle.write,
    query_decks, _read, _write, _new_data, _new_data_failed, _write_done,
    _write_failed, disconnect, _clear_query_cb, _clear_read_cb,
    _clear_write_cb, call, raise, lift, get, assign, emit, int_add, int_sub,
    mbind, mret, M_bind, M_ret;
  cbn -[_parse_info_section pretty String.append].

(** Splits on the tests a method makes, one after the other. *)
Ltac split_test :=
  first
    [ case_decide
    | match goal with
      | |- context [_parse_info_section ?d ?s] =>
          let r := fresh "r" in
          let Hr := fresh "Hr" in
          destruct (parse_info_section_pure d) as [r Hr];
          rewrite (Hr s); destruct r
      | |- context [negb (DeckMemory.supports_read ?d)] =>
          destruct (DeckMemory.supports_read d)
      | |- context [negb (DeckMemory.supports_write ?d)] =>
          destruct (DeckMemory.supports_write d)
      | |- context [negb (DeckMemory.is_started ?d)] =>
          destruct (DeckMemory.is_started d)
      | |- context [match ?x with Some _ => _ | None => _ end] =>
          is_var x; destruct x
      | |- context [match DeckMemory._base_address ?d with Some _ => _ | None => _ end] =>
          destruct (DeckMemory._base_address d)
      end ].
Ltac split_tests :=
  repeat (split_test; cbn -[_parse_info_section pretty String.append] in *).

(** The relative address the write callbacks get is taken against the read
    lane's base address, whatever base the write was dispatched with. *)
Lemma write_done_relative_to_read_base (s : t) (B B' R : Z) (d : list byte)
    (cb : callback) (fcb : option callback) :
  _write_complete_cb s = None →
  _read_base_address s = Some B' →
  (run [Write (Some B) R d (Some cb) fcb; WriteDone (id s) (B + R)] s).2
  = [MemWrite (R + B) d true; LogDebug "Write data done";
     Call cb (ArgsAddr (B + R - B'))].
Proof.
  intros Hidle Hbase. destruct s. cbn in Hidle, Hbase. subst.
  cbn [run]. run_method. split_tests; done.
Qed.

(** C2 (the code departs from the claim). The claim: the write-done and the
    write-failed callback get the delivered address minus the base address
    recorded in the write lane, that is the relative address of the request.
    The code subtracts the read lane's base address: on a fresh manager,
    whose read base is 0, a write with base 0x1000 and relative address 0x10
    completes, or fails, with 0x1010, not 0x10. *)
Theorem write_done_subtracts_read_base :
  run [Write (Some 0x1000) 0x10 [x01] (Some 1%nat) (Some 2%nat);
       WriteDone 7 0x1010] (init 7)
  = (set_write_base_address (Some 0x1000) (init 7),
     [MemWrite 0x1010 [x01] true; LogDebug "Write data done";
      Call 1%nat (ArgsAddr 0x1010)])
  ∧ run [Write (Some 0x1000) 0x10 [x01] (Some 1%nat) (Some 2%nat);
         WriteFailed 7 0x1010] (init 7)
    = (set_write_base_address (Some 0x1000) (init 7),
       [MemWrite 0x1010 [x01] true; LogDebug "Write failed";
        Call 2%nat (ArgsAddr 0x1010)])
  ∧ 0x1010 - 0x1000 = 0x10.
Proof. repeat split; reflexivity. Qed.

(** C3 (the code departs from the claim). The claim: a write failure whose
    request gave no failure callback is logged and the delivery does not
    raise. The code logs the debug line every failure gets, clears the lane
    and then calls [None]: the delivery raises [TypeError], and no error is
    logged. The read lane, in the same situation, logs an error and
    returns. *)
Theorem write_failed_without_callback_raises :
  let s1 := (step (Write (Some 0x1000) 0x10 [x01] (Some 1%nat) None) (init 7)).1.1 in
  let r1 := (step (Read (Some 0x1000) 0x10 4 (Some 1%nat) None) (init 7)).1.1 in
  step (Write (Some 0x1000) 0x10 [x01] (Some 1%nat) None) (init 7)
  = (s1, [MemWrite 0x1010 [x01] true], Ok tt)
  ∧ _write_failed_cb s1 = None
  ∧ step (WriteFailed 7 0x1010) s1
    = (set_write_base_address (Some 0x1000) (init 7),
       [LogDebug "Write failed"], Raise TypeError)
  ∧ step (NewDataFailed 7 0x1010 []) r1
    = (set_read_base_address (Some 0x1000) (init 7),
       [LogError "Deck memory read failed, addr: 4112"], Ok tt).
Proof. repeat split; reflexivity. Qed.

(** C9. A handle's [read] raises the capability exception whenever the
    supports-read flag is clear, whatever the other flags are, and the
    not-ready exception when supports-read is set and the started flag is
    clear; either way nothing reaches the manager: its attributes are the
    same and no effect is emitted. *)
Theorem handle_read_gates (deck : DeckMemory.t) (s : t) (address len : Z)
    (ccb fcb : option callback) :
  DeckMemory.supports_read deck && DeckMemory.is_started deck = false →
  step (HandleRead deck address len ccb fcb) s
  = (s, [],
     Raise (if DeckMemory.supports_read deck
            then NotReadyError else CapabilityUnsupportedError_read)).
Proof.
  intros Hgate. unfold step, DeckMemoryHandle.read.
  destruct (DeckMemory.supports_read deck); [|reflexivity].
  destruct (DeckMemory.is_started deck); [discriminate Hgate | reflexivity].
Qed.

Lemma handle_read_gates_witness :
  let write_only := DeckMemory.set_bit_field 0x0B DeckMemory.init in
  let not_started := DeckMemory.set_bit_field 0x05 DeckMemory.init in
  (DeckMemory.supports_write write_only = true
   ∧ DeckMemory.is_started write_only = true
   ∧ step (HandleRead write_only 0x10 4 (Some 1%nat) None) (init 7)
     = (init 7, [], Raise CapabilityUnsupportedError_read))
  ∧ (DeckMemory.supports_read not_started = true
     ∧ step (HandleRead not_started 0x10 4 (Some 1%nat) None) (init 7)
       = (init 7, [], Raise NotReadyError)).
Proof.
  cbv zeta. split.
  - split; [reflexivity|]. split; [reflexivity|].
    exact (handle_read_gates (DeckMemory.set_bit_field 0x0B DeckMemory.init)
             (init 7) 0x10 4 (Some 1%nat) None eq_refl).
  - split; [reflexivity|].
    exact (handle_read_gates (DeckMemory.set_bit_field 0x05 DeckMemory.init)
             (init 7) 0x10 4 (Some 1%nat) None eq_refl).
Defined.

(** C5. A request that reaches a lane whose stored completion callback is
    not [None] raises at once, emits nothing (so nothing is queued) and
    leaves every attribute of the manager as it was; hence whatever happens
    afterwards, the first request's completion included, happens as if the
    rejected call had not been made. *)
Theorem busy_lane_rejects (l : lane) (s : t) (e : event) :
  complete_cb l s ≠ None →
  requests l e = true →
  step e s = (s, [], Raise (ConcurrentOperationError l))
  ∧ ∀ es, run (e :: es) s = run es s.
Proof.
  intros Hbusy Hreq.
  assert (step e s = (s, [], Raise (ConcurrentOperationError l))) as Hstep.
  { destruct s; destruct l, e; cbn in Hbusy, Hreq; try discriminate Hreq;
      run_method;
      try (destruct (DeckMemory.supports_read deck); [|discriminate Hreq]);
      try (destruct (DeckMemory.supports_write deck); [|discriminate Hreq]);
      try (destruct (DeckMemory.is_started deck); [|discriminate Hreq]);
      cbn; case_decide; done. }
  split; [exact Hstep|].
  intros es. cbn [run]. rewrite Hstep. destruct (run es s). reflexivity.
Qed.

Lemma busy_lane_rejects_witness :
  let s1 := (step (QueryDecks (Some 1%nat)) (init 7)).1.1 in
  step (QueryDecks (Some 2%nat)) s1 = (s1, [], Raise (Exception "Query ongoing"))
  ∧ run [QueryDecks (Some 2%nat); NewData 7 0 lighthouse_section] s1
    = run [NewData 7 0 lighthouse_section] s1.
Proof.
  cbv zeta.
  destruct (busy_lane_rejects QueryLane
              (step (QueryDecks (Some 1%nat)) (init 7)).1.1
              (QueryDecks (Some 2%nat))
              ltac:(discriminate) eq_refl) as [H1 H2].
  split; [exact H1 | exact (H2 _)].
Defined.

(** C10. Occupancy is read off the completion callback alone: a read (or
    write) accepted with completion callback [None] leaves the lane testing
    idle, so a second read (or write) is accepted while the first is in
    flight, and its base address and failure callback replace the first
    request's. *)
Theorem none_completion_callback_keeps_lane_idle (s : t)
    (B1 R1 len1 B2 R2 len2 : Z) (d1 d2 : list byte)
    (fcb1 ccb2 fcb2 : option callback) :
  (_read_complete_cb s = None →
   let first := Read (Some B1) R1 len1 None fcb1 in
   let second := Read (Some B2) R2 len2 ccb2 fcb2 in
   let s1 := (step first s).1.1 in
   let s2 := (step second s1).1.1 in
   step first s = (s1, [MemRead (R1 + B1) len1], Ok tt)
   ∧ _read_complete_cb s1 = None
   ∧ _read_base_address s1 = Some B1 ∧ _read_failed_cb s1 = fcb1
   ∧ step second s1 = (s2, [MemRead (R2 + B2) len2], Ok tt)
   ∧ _read_base_address s2 = Some B2 ∧ _read_failed_cb s2 = fcb2)
  ∧ (_write_complete_cb s = None →
     let first := Write (Some B1) R1 d1 None fcb1 in
     let second := Write (Some B2) R2 d2 ccb2 fcb2 in
     let s1 := (step first s).1.1 in
     let s2 := (step second s1).1.1 in
     step first s = (s1, [MemWrite (R1 + B1) d1 true], Ok tt)
     ∧ _write_complete_cb s1 = None
     ∧ _write_base_address s1 = Some B1 ∧ _write_failed_cb s1 = fcb1
     ∧ step second s1 = (s2, [MemWrite (R2 + B2) d2 true], Ok tt)
     ∧ _write_base_address s2 = Some B2 ∧ _write_failed_cb s2 = fcb2).
Proof.
  destruct s; split; cbn; intros ->; run_method; repeat split.
Qed.

Lemma none_completion_callback_keeps_lane_idle_witness :
  run [Read (Some 0x1000) 0x10 4 None (Some 1%nat);
       Read (Some 0x2000) 0x20 8 (Some 2%nat) None] (init 7)
  = (set_read_complete_cb (Some 2%nat)
       (set_read_base_address (Some 0x2000) (init 7)),
     [MemRead 0x1010 4; MemRead 0x2020 8])
  ∧ run [Write (Some 0x1000) 0x10 [x01] None (Some 1%nat);
         Write (Some 0x2000) 0x20 [x02] (Some 2%nat) None] (init 7)
    = (set_write_complete_cb (Some 2%nat)
         (set_write_base_address (Some 0x2000) (init 7)),
       [MemWrite 0x1010 [x01] true; MemWrite 0x2020 [x02] true]).
Proof.
  destruct (none_completion_callback_keeps_lane_idle (init 7)
              0x1000 0x10 4 0x2000 0x20 8 [x01] [x02]
              (Some 1%nat) (Some 2%nat) None) as [Hr Hw].
  specialize (Hr eq_refl). specialize (Hw eq_refl).
  cbv zeta in Hr, Hw.
  destruct Hr as (Hr1 & _ & _ & _ & Hr2 & _).
  destruct Hw as (Hw1 & _ & _ & _ & Hw2 & _).
  split.
  - cbn [run]. rewrite Hr1, Hr2. reflexivity.
  - cbn [run]. rewrite Hw1, Hw2. reflexivity.
Defined.

(** *** Reads in flight *)

(** An event that is quiet for the read lane leaves a read in flight as it
    is: other lanes may start and finish, the deck map may be replaced, and
    further reads are turned away. *)
Lemma step_read_lane_quiet (e : event) (s : t) (cb : callback) (B : Z) :
  read_lane_quiet (id s) e = true →
  read_in_flight (id s) cb B s →
  read_in_flight (id s) cb B (step e s).1.1.
Proof.
  intros Hq (_ & Hcb & Hb). destruct s. cbn in Hq, Hcb, Hb |- *. subst.
  unfold read_in_flight.
  destruct e; cbn in Hq; try discriminate Hq; run_method; split_tests;
    done.
Qed.

Lemma run_read_lane_quiet (es : list event) (s : t) (cb : callback) (B : Z) :
  Forall (λ e, read_lane_quiet (id s) e = true) es →
  read_in_flight (id s) cb B s →
  read_in_flight (id s) cb B (run es s).1.
Proof.
  revert s. induction es as [|e es IH]; intros s Hall Hin; [exact Hin|].
  apply Forall_cons in Hall as [He Hall].
  pose proof (step_read_lane_quiet e s cb B He Hin) as Hstep.
  cbn [run]. destruct (step e s) as [[s1 out1] r1]. cbn in Hstep.
  assert (id s1 = id s) as Hid by apply Hstep.
  specialize (IH s1). rewrite Hid in IH. specialize (IH Hall Hstep).
  destruct (run es s1) as [s2 out2]. exact IH.
Qed.

(** C4, as the code has it. A read through a handle that supports reading
    and is started, with base address [B], relative address [R] and a
    completion callback, issued while the read lane is idle, goes out at
    [B + R]; if [B + R] is not the info section address, then after any
    events that are quiet for the read lane (a query replacing the deck map
    among them) the delivery of data at [B + R] calls the completion
    callback with [R] and the data and leaves the read lane idle. *)
Theorem read_round_trip_off_info_address (s : t) (deck : DeckMemory.t)
    (B R len : Z) (cb : callback) (fcb : option callback)
    (es : list event) (data : list byte) :
  DeckMemory._base_address deck = Some B →
  DeckMemory.supports_read deck = true →
  DeckMemory.is_started deck = true →
  _read_complete_cb s = None →
  B + R ≠ INFO_SECTION_ADDRESS →
  Forall (λ e, read_lane_quiet (id s) e = true) es →
  read_round_trip s deck R len cb fcb es data.
Proof.
  intros HB Hread Hstarted Hidle Hne Hquiet.
  set (s1 := set_read_failed_cb fcb
               (set_read_complete_cb (Some cb)
                  (set_read_base_address (Some B) s))).
  assert (step (HandleRead deck R len (Some cb) fcb) s
          = (s1, [MemRead (B + R) len], Ok tt)) as Hstep.
  { subst s1. destruct s. cbn in Hidle. subst. run_method.
    rewrite Hread, Hstarted, HB. cbn. rewrite (Z.add_comm R B). reflexivity. }
  assert (read_in_flight (id s1) cb B (run es s1).1) as (Hid & Hcb & Hb).
  { apply run_read_lane_quiet; [exact Hquiet | repeat split]. }
  exists B, s1. destruct (run es s1).1 as [i q dm rc rf rb wc wf wb].
  cbn in Hid, Hcb, Hb. change (id s1) with (id s) in Hid. subst.
  eexists. split; [exact HB|]. split; [exact Hstep|].
  run_method. rewrite decide_True by reflexivity.
  rewrite decide_False by exact Hne. cbn.
  replace (B + R - B) with R by lia. split; reflexivity.
Qed.

Lemma read_round_trip_off_info_address_witness :
  let deck :=
    {| DeckMemory.required_hash := Some 0; DeckMemory.required_length := Some 0;
       DeckMemory.name := Some []; DeckMemory._base_address := Some 0x1000;
       DeckMemory._bit_field := 0x0F |} in
  read_round_trip (init 7) deck 0x10 4 1%nat None
    [QueryDecks (Some 2%nat); NewData 7 0 lighthouse_section]
    [x01; x02; x03; x04].
Proof.
  cbv zeta.
  apply (read_round_trip_off_info_address (init 7) _ 0x1000);
    [reflexivity | reflexivity | reflexivity | reflexivity | discriminate |].
  repeat constructor.
Defined.

(** C4, as the claim states it, fails for a deck at base address 0 read at
    relative address 0: the data delivered at address 0 is taken for the
    info section, the read callback is not called and the read lane stays
    occupied. *)
Lemma read_round_trip_fails_at_info_address :
  let deck :=
    {| DeckMemory.required_hash := Some 0; DeckMemory.required_length := Some 0;
       DeckMemory.name := Some []; DeckMemory._base_address := Some 0;
       DeckMemory._bit_field := 0x0F |} in
  DeckMemory.supports_read deck = true
  ∧ DeckMemory.is_started deck = true
  ∧ _read_complete_cb (init 7) = None
  ∧ ¬ read_round_trip (init 7) deck 0 4 1%nat None [] [x01; x02; x03; x04].
Proof.
  cbv zeta. repeat split.
  intros (B & s1 & s3 & HB & H1 & H2 & _).
  injection HB as <-.
  vm_compute in H1. injection H1 as <-.
  vm_compute in H2. discriminate H2.
Qed.

(** *** Disconnect *)

(** A callback that is stored nowhere and is not handed in by the event is
    not called by it and is stored nowhere afterwards. *)
Lemma step_unstored (c : callback) (e : event) (s : t) :
  supplies c e = false →
  unstored c s →
  unstored c (step e s).1.1 ∧ ∀ args, ¬ In (Call c args) (step e s).1.2.
Proof.
  intros Hsup (Hq & Hrc & Hrf & Hwc & Hwf). destruct s.
  cbn in Hq, Hrc, Hrf, Hwc, Hwf. unfold unstored.
  destruct e; cbn in Hsup;
    try (apply orb_false_elim in Hsup as [Hs1 Hs2];
         apply bool_decide_eq_false in Hs1, Hs2);
    try apply bool_decide_eq_false in Hsup;
    run_method; split_tests;
    (split; [repeat split; done | intros args; cbn; intuition congruence]).
Qed.

Lemma run_unstored (c : callback) (es : list event) (s : t) :
  Forall (λ e, supplies c e = false) es →
  unstored c s →
  ∀ args, ¬ In (Call c args) (run es s).2.
Proof.
  revert s. induction es as [|e es IH]; intros s Hall Hun args; [intros []|].
  apply Forall_cons in Hall as [He Hall].
  destruct (step_unstored c e s He Hun) as [Hun1 Hout1].
  specialize (Hout1 args).
  cbn [run]. destruct (step e s) as [[s1 out1] r1]. cbn in Hun1, Hout1.
  specialize (IH s1 Hall Hun1 args).
  destruct (run es s1) as [s2 out2]. cbn in IH |- *.
  rewrite in_app_iff. tauto.
Qed.

(** C8. [disconnect] returns without emitting anything, so it calls no
    callback; afterwards the deck map is empty and the five callback
    attributes are [None], so the three lanes are idle; and in whatever
    follows, a callback is only ever called if a later request hands it in
    again: those pending at the disconnect are dropped for good. *)
Theorem disconnect_drops_pending (s : t) :
  let s' := (step Disconnect s).1.1 in
  step Disconnect s = (s', [], Ok tt)
  ∧ deck_memories s' = ∅
  ∧ _query_complete_cb s' = None
  ∧ _read_complete_cb s' = None ∧ _read_failed_cb s' = None
  ∧ _write_complete_cb s' = None ∧ _write_failed_cb s' = None
  ∧ ∀ (c : callback) (es : list event) (args : call_args),
      Forall (λ e, supplies c e = false) es →
      ¬ In (Call c args) (run es s').2.
Proof.
  cbv zeta. destruct s. run_method. repeat split.
  intros c es args Hall. apply run_unstored; [exact Hall|].
  repeat split; discriminate.
Qed.

Lemma disconnect_drops_pending_witness :
  let pending :=
    (run [QueryDecks (Some 1%nat);
          Read (Some 0x1000) 0x10 4 (Some 2%nat) (Some 3%nat);
          Write (Some 0x1000) 0x10 [x01] (Some 4%nat) (Some 5%nat)] (init 7)).1 in
  let late :=
    [NewData 7 0 lighthouse_section; NewData 7 0x1010 [x01]; WriteDone 7 0x1010;
     NewDataFailed 7 0x1010 []; WriteFailed 7 0x1010] in
  _read_complete_cb pending = Some 2%nat
  ∧ ¬ In (Call 2%nat (ArgsAddrData 0x10 [x01]))
        (run late (step Disconnect pending).1.1).2.
Proof.
  cbv zeta. split; [reflexivity|].
  apply (disconnect_drops_pending _). repeat constructor.
Defined.

(** ** Further properties of the lanes *)

Import Deliveries.

(** A handle's [write] is gated like its [read]: without the supports-write
    flag it raises the capability exception whatever the other flags are,
    with it but without the started flag the not-ready exception, and in
    both cases the manager is left as it was and nothing is emitted. *)
Theorem handle_write_gates (deck : DeckMemory.t) (s : t) (address : Z)
    (data : list byte) (ccb fcb : option callback) :
  DeckMemory.supports_write deck && DeckMemory.is_started deck = false →
  step (HandleWrite deck address data ccb fcb) s
  = (s, [],
     Raise (if DeckMemory.supports_write deck
            then Exception "Deck not ready"
            else Exception "Deck does not support write operations")).
Proof.
  intros Hgate. unfold step, DeckMemoryHandle.write.
  destruct (DeckMemory.supports_write deck); [|reflexivity].
  destruct (DeckMemory.is_started deck); [discriminate Hgate | reflexivity].
Qed.

Lemma handle_write_gates_witness :
  let read_only := DeckMemory.set_bit_field 0x07 DeckMemory.init in
  let not_started := DeckMemory.set_bit_field 0x09 DeckMemory.init in
  (DeckMemory.supports_read read_only = true
   ∧ step (HandleWrite read_only 0x10 [x01] (Some 1%nat) None) (init 7)
     = (init 7, [], Raise (Exception "Deck does not support write operations")))
  ∧ (DeckMemory.supports_write not_started = true
     ∧ step (HandleWrite not_started 0x10 [x01] (Some 1%nat) None) (init 7)
       = (init 7, [], Raise (Exception "Deck not ready"))).
Proof.
  cbv zeta. split.
  - split; [reflexivity|].
    exact (handle_write_gates (DeckMemory.set_bit_field 0x07 DeckMemory.init)
             (init 7) 0x10 [x01] (Some 1%nat) None eq_refl).
  - split; [reflexivity|].
    exact (handle_write_gates (DeckMemory.set_bit_field 0x09 DeckMemory.init)
             (init 7) 0x10 [x01] (Some 1%nat) None eq_refl).
Defined.

Lemma handle_write_dispatch_gen (deck : DeckMemory.t) (s : t) (B address : Z)
    (data : list byte) (ccb fcb : option callback) :
  DeckMemory.supports_write deck = true →
  DeckMemory.is_started deck = true →
  DeckMemory._base_address deck = Some B →
  _write_complete_cb s = None →
  step (HandleWrite deck address data ccb fcb) s
  = (mk (id s) (_query_complete_cb s) (deck_memories s)
        (_read_complete_cb s) (_read_failed_cb s) (_read_base_address s)
        ccb fcb (Some B),
     [MemWrite (address + B) data true], Ok tt).
Proof.
  intros Hw Hs HB Hidle. destruct s. cbn in Hidle. subst.
  run_method. rewrite Hw, Hs, HB. reflexivity.
Qed.

(** A [write] through a handle that supports writing and is started, on an
    idle write lane, makes exactly one call of the memory handler: a write
    of the data at the handle's base address plus the given address, with
    [flush_queue] set. It records the base address and both callbacks in the
    write lane and touches no other attribute. *)
Theorem handle_write_dispatch (deck : DeckMemory.t) (s : t) (B address : Z)
    (data : list byte) (ccb fcb : option callback) :
  DeckMemory.supports_write deck = true →
  DeckMemory.is_started deck = true →
  DeckMemory._base_address deck = Some B →
  _write_complete_cb s = None →
  step (HandleWrite deck address data ccb fcb) s
  = (mk (id s) (_query_complete_cb s) (deck_memories s)
        (_read_complete_cb s) (_read_failed_cb s) (_read_base_address s)
        ccb fcb (Some B),
     [MemWrite (address + B) data true], Ok tt).
Proof. exact (handle_write_dispatch_gen deck s B address data ccb fcb). Qed.

Lemma handle_write_dispatch_witness :
  let deck :=
    {| DeckMemory.required_hash := Some 0; DeckMemory.required_length := Some 0;
       DeckMemory.name := Some []; DeckMemory._base_address := Some 0x2000;
       DeckMemory._bit_field := 0x0F |} in
  (step (HandleWrite deck 0x10 [x01; x02] (Some 1%nat) None) (init 7)).1.2
  = [MemWrite 0x2010 [x01; x02] true].
Proof.
  cbv zeta.
  rewrite (handle_write_dispatch
             {| DeckMemory.required_hash := Some 0;
                DeckMemory.required_length := Some 0;
                DeckMemory.name := Some [];
                DeckMemory._base_address := Some 0x2000;
                DeckMemory._bit_field := 0x0F |}
             (init 7) 0x2000 0x10 [x01; x02] (Some 1%nat)
             None eq_refl eq_refl eq_refl eq_refl).
  reflexivity.
Defined.

(** The four entry points of the memory handler ignore a delivery for
    another memory: when the identifier differs from the manager's, they
    return without changing an attribute, calling a callback or logging. *)
Theorem foreign_delivery_ignored (s : t) (m addr : Z) (data : list byte) :
  m ≠ id s →
  step (NewData m addr data) s = (s, [], Ok tt)
  ∧ step (NewDataFailed m addr data) s = (s, [], Ok tt)
  ∧ step (WriteDone m addr) s = (s, [], Ok tt)
  ∧ step (WriteFailed m addr) s = (s, [], Ok tt).
Proof.
  intros Hne. destruct s. cbn in Hne.
  repeat split; run_method; rewrite decide_False by exact Hne; reflexivity.
Qed.

Lemma foreign_delivery_ignored_witness :
  let s := (run [QueryDecks (Some 1%nat);
                 Read (Some 0x1000) 0x10 4 (Some 2%nat) (Some 3%nat)] (init 7)).1 in
  run [NewData 8 0 lighthouse_section; NewData 8 0x1010 [x01];
       NewDataFailed 8 0x1010 []] s = (s, []).
Proof.
  cbv zeta.
  set (s := (run _ (init 7)).1).
  destruct (foreign_delivery_ignored s 8 0 lighthouse_section
              ltac:(discriminate)) as (H1 & _).
  destruct (foreign_delivery_ignored s 8 0x1010 [x01]
              ltac:(discriminate)) as (H2 & _).
  destruct (foreign_delivery_ignored s 8 0x1010 []
              ltac:(discriminate)) as (_ & H3 & _).
  cbn [run]. rewrite H1, H2, H3. reflexivity.
Defined.

(** The deck map is assigned only by a query request, by a disconnect and
    by a data delivery at the info section address: every other call, reads
    and writes and their completions and failures included, leaves it as it
    is, whether the call returns or raises. *)
Theorem deck_map_kept (s : t) (es : list event) :
  Forall (λ e, may_assign_deck_map (id s) e = false) es →
  deck_memories (run es s).1 = deck_memories s ∧ id (run es s).1 = id s.
Proof.
  revert s. induction es as [|e es IH]; intros s Hall; [split; reflexivity|].
  apply Forall_cons in Hall as [He Hall].
  assert (deck_memories (step e s).1.1 = deck_memories s
          ∧ id (step e s).1.1 = id s) as [Hd Hi].
  { clear IH Hall. destruct s. cbn in He |- *.
    destruct e; cbn in He; try discriminate He; run_method; split_tests;
      try done; cbn in He; discriminate He. }
  cbn [run]. destruct (step e s) as [[s1 out1] r1]. cbn in Hd, Hi.
  specialize (IH s1). rewrite Hi in IH. destruct (IH Hall) as [IHd IHi].
  destruct (run es s1) as [s2 out2]. cbn in IHd, IHi |- *.
  split; congruence.
Qed.

Lemma deck_map_kept_witness :
  let s := (run [QueryDecks (Some 1%nat); NewData 7 0 lighthouse_section]
              (init 7)).1 in
  deck_memories
    (run [Read (Some 0x2000) 0x10 4 (Some 2%nat) None; NewData 7 0x2010 [x01];
          Write (Some 0x2000) 0 [x01] (Some 3%nat) None; WriteFailed 7 0x2000;
          NewDataFailed 7 0 []] s).1
  = deck_memories s
  ∧ size (deck_memories s) = 1%nat.
Proof.
  cbv zeta. split; [|reflexivity].
  apply deck_map_kept. repeat constructor.
Defined.

(** *** Queries in flight *)

Lemma step_query_lane_quiet (e : event) (s : t) (cb : callback) :
  query_lane_quiet (id s) e = true →
  query_in_flight (id s) cb s →
  query_in_flight (id s) cb (step e s).1.1
  ∧ (may_assign_deck_map (id s) e = false →
     deck_memories (step e s).1.1 = deck_memories s).
Proof.
  intros Hq (_ & Hcb). destruct s. cbn in Hq, Hcb |- *. subst.
  unfold query_in_flight.
  destruct e; cbn in Hq |- *; try discriminate Hq; run_method; split_tests;
    try done; cbn in Hq; discriminate Hq.
Qed.

Lemma run_query_lane_quiet (es : list event) (s : t) (cb : callback) :
  Forall (λ e, query_lane_quiet (id s) e = true) es →
  query_in_flight (id s) cb s →
  query_in_flight (id s) cb (run es s).1.
Proof.
  revert s. induction es as [|e es IH]; intros s Hall Hin; [exact Hin|].
  apply Forall_cons in Hall as [He Hall].
  destruct (step_query_lane_quiet e s cb He Hin) as [Hstep _].
  cbn [run]. destruct (step e s) as [[s1 out1] r1]. cbn in Hstep.
  assert (id s1 = id s) as Hid by apply Hstep.
  specialize (IH s1). rewrite Hid in IH. specialize (IH Hall Hstep).
  destruct (run es s1) as [s2 out2]. exact IH.
Qed.

(** A query on an idle query lane empties the deck map at once and asks the
    memory handler for the whole info section at its address. Whatever the
    other lanes do meanwhile, when the section arrives and decodes, the deck
    map becomes the decoded mapping, the lane is idle again and the callback
    is called once, with that mapping. *)
Theorem query_round_trip (s : t) (cb : callback) (es : list event)
    (data : list byte) (decks : gmap nat DeckMemory.t) :
  _query_complete_cb s = None →
  Forall (λ e, query_lane_quiet (id s) e = true) es →
  (_parse_info_section data s).2 = Ok decks →
  let s1 := set_query_complete_cb (Some cb) (set_deck_memories ∅ s) in
  let s2 := (run es s1).1 in
  step (QueryDecks (Some cb)) s
  = (s1, [MemRead INFO_SECTION_ADDRESS (Z.of_nat SIZE_OF_INFO_SECTION)], Ok tt)
  ∧ step (NewData (id s) INFO_SECTION_ADDRESS data) s2
    = (set_query_complete_cb None (set_deck_memories decks s2),
       [Call cb (ArgsDecks decks)], Ok tt).
Proof.
  intros Hidle Hquiet Hparse. cbv zeta. split.
  - destruct s. cbn in Hidle. subst. run_method. reflexivity.
  - assert (query_in_flight (id s) cb
              (run es (set_query_complete_cb (Some cb)
                         (set_deck_memories ∅ s))).1) as (Hid & Hcb).
    { apply (run_query_lane_quiet es
               (set_query_complete_cb (Some cb) (set_deck_memories ∅ s)));
        [exact Hquiet | split; reflexivity]. }
    destruct (parse_info_section_pure data) as [r Hr].
    rewrite Hr in Hparse. cbn in Hparse. subst r.
    destruct (run es _).1 as [i q dm rc rf rb wc wf wb].
    cbn in Hid, Hcb. subst.
    run_method. rewrite decide_True by reflexivity.
    rewrite decide_True by reflexivity. rewrite Hr. reflexivity.
Qed.

Lemma query_round_trip_witness :
  let decks : gmap nat DeckMemory.t :=
    {[ 0%nat :=
         {| DeckMemory.required_hash := Some 0xAABBCCDD;
            DeckMemory.required_length := Some 1024;
            DeckMemory.name := Some (str_literal "bcLighthouse4");
            DeckMemory._base_address := Some 0x2000;
            DeckMemory._bit_field := 0x0F |} ]} in
  let s1 := set_query_complete_cb (Some 1%nat) (set_deck_memories ∅ (init 7)) in
  let s2 := (run [Write (Some 0x2000) 0 [x01] (Some 2%nat) None] s1).1 in
  step (NewData 7 0 lighthouse_section) s2
  = (set_query_complete_cb None (set_deck_memories decks s2),
     [Call 1%nat (ArgsDecks decks)], Ok tt).
Proof.
  cbv zeta.
  refine (proj2 (query_round_trip (init 7) 1%nat
                   [Write (Some 0x2000) 0 [x01] (Some 2%nat) None]
                   lighthouse_section _ eq_refl _ _)).
  - repeat constructor.
  - vm_compute. reflexivity.
Defined.

(** When the decoder raises on the delivered section, the exception leaves
    [_new_data] before anything is assigned: the deck map and the query
    callback stay as they were, no callback is called, and the query is
    left in flight. *)
Theorem query_unresolved_when_decoder_raises (s : t) (data : list byte)
    (e : exn) :
  (_parse_info_section data s).2 = Raise e →
  step (NewData (id s) INFO_SECTION_ADDRESS data) s = (s, [], Raise e).
Proof.
  intros Hparse. destruct (parse_info_section_pure data) as [r Hr].
  rewrite Hr in Hparse. cbn in Hparse. subst r.
  destruct s. run_method. rewrite decide_True by reflexivity.
  rewrite decide_True by reflexivity. rewrite Hr. reflexivity.
Qed.

Lemma query_unresolved_when_decoder_raises_witness :
  let s := (step (QueryDecks (Some 1%nat)) (init 7)).1.1 in
  step (NewData 7 0 [x01; x01]) s = (s, [], Raise StructError)
  ∧ _query_complete_cb s = Some 1%nat.
Proof.
  cbv zeta. split; [|reflexivity].
  apply (query_unresolved_when_decoder_raises
           (step (QueryDecks (Some 1%nat)) (init 7)).1.1 [x01; x01] StructError).
  vm_compute. reflexivity.
Defined.

(** A query that fails has no callback to tell: the failure is logged as an
    error, nothing is called, the lane is idle again and the next query is
    accepted. The deck map stays empty, as the request left it, when no
    other query ran in between. *)
Theorem query_failure_frees_lane (s : t) (cb : callback) (cb2 : option callback)
    (es : list event) (data : list byte) :
  _query_complete_cb s = None →
  Forall (λ e, query_lane_quiet (id s) e = true) es →
  let s1 := (step (QueryDecks (Some cb)) s).1.1 in
  let s2 := (run es s1).1 in
  let s3 := set_query_complete_cb None s2 in
  step (NewDataFailed (id s) INFO_SECTION_ADDRESS data) s2
  = (s3, [LogError "Deck memory query failed"], Ok tt)
  ∧ step (QueryDecks cb2) s3
    = (set_query_complete_cb cb2 (set_deck_memories ∅ s3),
       [MemRead INFO_SECTION_ADDRESS (Z.of_nat SIZE_OF_INFO_SECTION)], Ok tt).
Proof.
  intros Hidle Hquiet. cbv zeta.
  assert ((step (QueryDecks (Some cb)) s).1.1
          = set_query_complete_cb (Some cb) (set_deck_memories ∅ s)) as ->.
  { destruct s. cbn in Hidle. subst. run_method. reflexivity. }
  assert (query_in_flight (id s) cb
            (run es (set_query_complete_cb (Some cb)
                       (set_deck_memories ∅ s))).1) as (Hid & Hcb).
  { apply (run_query_lane_quiet es
             (set_query_complete_cb (Some cb) (set_deck_memories ∅ s)));
      [exact Hquiet | split; reflexivity]. }
  destruct (run es _).1 as [i q dm rc rf rb wc wf wb].
  cbn in Hid, Hcb. subst.
  split; run_method.
  - rewrite decide_True by reflexivity. rewrite decide_True by reflexivity.
    reflexivity.
  - reflexivity.
Qed.

Lemma query_failure_frees_lane_witness :
  let s2 := (run [QueryDecks (Some 2%nat)]
               (step (QueryDecks (Some 1%nat)) (init 7)).1.1).1 in
  let s3 := set_query_complete_cb None s2 in
  step (NewDataFailed 7 0 []) s2
  = (s3, [LogError "Deck memory query failed"], Ok tt)
  ∧ step (QueryDecks (Some 3%nat)) s3
    = (set_query_complete_cb (Some 3%nat) (set_deck_memories ∅ s3),
       [MemRead 0 129], Ok tt).
Proof.
  exact (query_failure_frees_lane (init 7) 1%nat (Some 3%nat)
           [QueryDecks (Some 2%nat)] [] eq_refl ltac:(repeat constructor)).
Defined.

(** *** Failures and stray completions of reads *)

Lemma step_read_lane_quiet_failed (e : event) (s : t) (cb : callback) :
  read_lane_quiet (id s) e = true →
  _read_complete_cb s = Some cb →
  _read_failed_cb (step e s).1.1 = _read_failed_cb s.
Proof.
  intros Hq Hcb. destruct s. cbn in Hq, Hcb |- *. subst.
  destruct e; cbn in Hq; try discriminate Hq; run_method; split_tests;
    done.
Qed.

Lemma run_read_lane_quiet_failed (es : list event) (s : t) (cb : callback)
    (B : Z) :
  Forall (λ e, read_lane_quiet (id s) e = true) es →
  read_in_flight (id s) cb B s →
  _read_failed_cb (run es s).1 = _read_failed_cb s.
Proof.
  revert s. induction es as [|e es IH]; intros s Hall Hin; [reflexivity|].
  apply Forall_cons in Hall as [He Hall].
  pose proof (step_read_lane_quiet e s cb B He Hin) as Hstep.
  pose proof (step_read_lane_quiet_failed e s cb He (proj1 (proj2 Hin))) as Hf.
  cbn [run]. destruct (step e s) as [[s1 out1] r1]. cbn in Hstep, Hf.
  assert (id s1 = id s) as Hid by apply Hstep.
  specialize (IH s1). rewrite Hid in IH. specialize (IH Hall Hstep).
  destruct (run es s1) as [s2 out2]. cbn in IH |- *. congruence.
Qed.

(** The failure of a read through a handle makes the same round trip as its
    completion: when the memory handler reports the failure at base plus
    relative address (not the info section address), the failure callback
    is called with the relative address; when the request gave no failure
    callback, the failure is logged as an error with the absolute address.
    Either way the read lane is idle afterwards and nothing raises. *)
Theorem read_failure_round_trip (s : t) (deck : DeckMemory.t)
    (B R len : Z) (cb : callback) (fcb : option callback)
    (es : list event) (data : list byte) :
  DeckMemory._base_address deck = Some B →
  DeckMemory.supports_read deck = true →
  DeckMemory.is_started deck = true →
  _read_complete_cb s = None →
  B + R ≠ INFO_SECTION_ADDRESS →
  Forall (λ e, read_lane_quiet (id s) e = true) es →
  let s1 := (step (HandleRead deck R len (Some cb) fcb) s).1.1 in
  let s2 := (run es s1).1 in
  step (NewDataFailed (id s) (B + R) data) s2
  = (set_read_failed_cb None (set_read_complete_cb None s2),
     match fcb with
     | Some f => [Call f (ArgsAddr R)]
     | None =>
         [LogError ("Deck memory read failed, addr: " +:+ pretty (B + R))]
     end, Ok tt).
Proof.
  intros HB Hread Hstarted Hidle Hne Hquiet. cbv zeta.
  assert ((step (HandleRead deck R len (Some cb) fcb) s).1.1
          = set_read_failed_cb fcb
              (set_read_complete_cb (Some cb)
                 (set_read_base_address (Some B) s))) as ->.
  { destruct s. cbn in Hidle. subst. run_method.
    rewrite Hread, Hstarted, HB. reflexivity. }
  set (s1 := set_read_failed_cb fcb _).
  assert (read_in_flight (id s1) cb B s1) as Hin by (repeat split).
  pose proof (run_read_lane_quiet es s1 cb B Hquiet Hin) as (Hid & Hcb & Hb).
  pose proof (run_read_lane_quiet_failed es s1 cb B Hquiet Hin) as Hf.
  destruct (run es s1).1 as [i q dm rc rf rb wc wf wb].
  cbn in Hid, Hcb, Hb, Hf. change (id s1) with (id s) in Hid. subst.
  run_method. rewrite decide_True by reflexivity.
  rewrite decide_False by exact Hne. cbn.
  destruct fcb as [f|]; case_decide; try done; cbn.
  replace (B + R - B) with R by lia. reflexivity.
Qed.

Lemma read_failure_round_trip_witness :
  let deck :=
    {| DeckMemory.required_hash := Some 0; DeckMemory.required_length := Some 0;
       DeckMemory.name := Some []; DeckMemory._base_address := Some 0x1000;
       DeckMemory._bit_field := 0x0F |} in
  let s2 fcb :=
    (run [QueryDecks (Some 3%nat)]
       (step (HandleRead deck 0x10 4 (Some 1%nat) fcb) (init 7)).1.1).1 in
  step (NewDataFailed 7 0x1010 []) (s2 (Some 2%nat))
  = (set_read_failed_cb None (set_read_complete_cb None (s2 (Some 2%nat))),
     [Call 2%nat (ArgsAddr 0x10)], Ok tt)
  ∧ step (NewDataFailed 7 0x1010 []) (s2 None)
    = (set_read_failed_cb None (set_read_complete_cb None (s2 None)),
       [LogError "Deck memory read failed, addr: 4112"], Ok tt).
Proof.
  cbv zeta. split.
  - exact (read_failure_round_trip (init 7)
             {| DeckMemory.required_hash := Some 0;
                DeckMemory.required_length := Some 0;
                DeckMemory.name := Some [];
                DeckMemory._base_address := Some 0x1000;
                DeckMemory._bit_field := 0x0F |}
             0x1000 0x10 4 1%nat (Some 2%nat) [QueryDecks (Some 3%nat)] []
             eq_refl eq_refl eq_refl eq_refl ltac:(discriminate)
             ltac:(repeat constructor)).
  - exact (read_failure_round_trip (init 7)
             {| DeckMemory.required_hash := Some 0;
                DeckMemory.required_length := Some 0;
                DeckMemory.name := Some [];
                DeckMemory._base_address := Some 0x1000;
                DeckMemory._bit_field := 0x0F |}
             0x1000 0x10 4 1%nat None [QueryDecks (Some 3%nat)] []
             eq_refl eq_refl eq_refl eq_refl ltac:(discriminate)
             ltac:(repeat constructor)).
Defined.

(** A completion that finds no completion callback stored calls nothing and
    raises [TypeError], the call of [None]. For data at a read address the
    read lane's failure callback is cleared on the way; for a write the
    debug line is logged and the failure callback cleared; for an info
    section that decodes, the deck map is replaced before the raise. *)
Theorem stray_completion_raises (s : t) (addr : Z) (data : list byte)
    (decks : gmap nat DeckMemory.t) :
  (_read_complete_cb s = None → addr ≠ INFO_SECTION_ADDRESS →
   step (NewData (id s) addr data) s
   = (set_read_failed_cb None s, [], Raise TypeError))
  ∧ (_write_complete_cb s = None →
     step (WriteDone (id s) addr) s
     = (set_write_failed_cb None s, [LogDebug "Write data done"],
        Raise TypeError))
  ∧ (_query_complete_cb s = None →
     (_parse_info_section data s).2 = Ok decks →
     step (NewData (id s) INFO_SECTION_ADDRESS data) s
     = (set_deck_memories decks s, [], Raise TypeError)).
Proof.
  destruct (parse_info_section_pure data) as [r Hr].
  destruct s. cbn. repeat split.
  - intros -> Hne. run_method. rewrite decide_True by reflexivity.
    rewrite decide_False by exact Hne. cbn.
    destruct _read_base_address0; reflexivity.
  - intros ->. run_method. rewrite decide_True by reflexivity. cbn.
    destruct _read_base_address0; reflexivity.
  - intros -> Hparse. rewrite Hr in Hparse. cbn in Hparse. subst r.
    run_method. rewrite decide_True by reflexivity.
    rewrite decide_True by reflexivity. rewrite Hr. reflexivity.
Qed.

Lemma stray_completion_raises_witness :
  let decks : gmap nat DeckMemory.t :=
    {[ 0%nat :=
         {| DeckMemory.required_hash := Some 0xAABBCCDD;
            DeckMemory.required_length := Some 1024;
            DeckMemory.name := Some (str_literal "bcLighthouse4");
            DeckMemory._base_address := Some 0x2000;
            DeckMemory._bit_field := 0x0F |} ]} in
  step (NewData 7 0x1010 [x01]) (init 7) = (init 7, [], Raise TypeError)
  ∧ step (WriteDone 7 0x1010) (init 7)
    = (init 7, [LogDebug "Write data done"], Raise TypeError)
  ∧ step (NewData 7 0 lighthouse_section) (init 7)
    = (set_deck_memories decks (init 7), [], Raise TypeError).
Proof.
  cbv zeta.
  destruct (stray_completion_raises (init 7) 0x1010 [x01] ∅) as (H1 & H2 & _).
  split; [exact (H1 eq_refl ltac:(discriminate))|].
  split; [exact (H2 eq_refl)|].
  refine (proj2 (proj2 (stray_completion_raises (init 7) 0 lighthouse_section _))
            eq_refl _).
  vm_compute. reflexivity.
Defined.

(** *** Exactly one call per completed read *)

Lemma run_app (es1 es2 : list event) (s : t) :
  run (es1 ++ es2) s
  = ((run es2 (run es1 s).1).1, (run es1 s).2 ++ (run es2 (run es1 s).1).2).
Proof.
  revert s. induction es1 as [|e es1 IH]; intros s.
  - cbn. destruct (run es2 s). reflexivity.
  - cbn [app run]. destruct (step e s) as [[s1 out1] r1]. rewrite IH.
    destruct (run es1 s1) as [s2 out2]. cbn.
    rewrite <- app_assoc. reflexivity.
Qed.

Lemma calls_of_app (c : callback) (out1 out2 : list effect) :
  calls_of c (out1 ++ out2) = (calls_of c out1 + calls_of c out2)%nat.
Proof. unfold calls_of. rewrite List.filter_app, length_app. reflexivity. Qed.

Lemma calls_of_none (c : callback) (out : list effect) :
  (∀ args, ¬ In (Call c args) out) → calls_of c out = 0%nat.
Proof.
  unfold calls_of. induction out as [|e out IH]; intros Hnone; [reflexivity|].
  cbn [List.filter].
  destruct (is_call_of c e) eqn:Hc.
  - destruct e as [| |c' args| |]; try discriminate Hc.
    cbn in Hc. apply bool_decide_eq_true in Hc. subst c'.
    exfalso. apply (Hnone args). left. reflexivity.
  - apply IH. intros args Hin. apply (Hnone args). right. exact Hin.
Qed.

(** While a read waits, nothing that is quiet for the read lane calls its
    completion callback, as long as that callback is stored nowhere else and
    is not handed in again. *)
Lemma step_only_read_complete (c : callback) (e : event) (s : t) :
  read_lane_quiet (id s) e = true →
  supplies c e = false →
  only_read_complete c s →
  only_read_complete c (step e s).1.1
  ∧ id (step e s).1.1 = id s
  ∧ _read_base_address (step e s).1.1 = _read_base_address s
  ∧ ∀ args, ¬ In (Call c args) (step e s).1.2.
Proof.
  intros Hq Hsup (Hqc & Hrc & Hrf & Hwc & Hwf). destruct s.
  cbn in Hq, Hqc, Hrc, Hrf, Hwc, Hwf. subst. unfold only_read_complete.
  destruct e; cbn in Hq, Hsup; try discriminate Hq;
    try (apply orb_false_elim in Hsup as [Hs1 Hs2];
         apply bool_decide_eq_false in Hs1, Hs2);
    try apply bool_decide_eq_false in Hsup;
    run_method; split_tests;
    (split; [repeat split; done
            | split; [done | split; [done|]];
              intros args; cbn; intuition congruence]).
Qed.

Lemma run_only_read_complete (c : callback) (es : list event) (s : t) :
  Forall (λ e, read_lane_quiet (id s) e = true ∧ supplies c e = false) es →
  only_read_complete c s →
  only_read_complete c (run es s).1
  ∧ id (run es s).1 = id s
  ∧ _read_base_address (run es s).1 = _read_base_address s
  ∧ ∀ args, ¬ In (Call c args) (run es s).2.
Proof.
  revert s. induction es as [|e es IH]; intros s Hall Hin.
  - repeat split; [apply Hin.. | intros args []].
  - apply Forall_cons in Hall as [[Hq Hsup] Hall].
    destruct (step_only_read_complete c e s Hq Hsup Hin)
      as (Hin1 & Hid1 & Hb1 & Hout1).
    cbn [run]. destruct (step e s) as [[s1 out1] r1].
    cbn in Hin1, Hid1, Hb1, Hout1.
    specialize (IH s1). rewrite Hid1 in IH.
    destruct (IH Hall Hin1) as (Hin2 & Hid2 & Hb2 & Hout2).
    destruct (run es s1) as [s2 out2]. cbn in Hin2, Hid2, Hb2, Hout2 |- *.
    split; [exact Hin2|]. split; [congruence|]. split; [congruence|].
    intros args Hi. apply in_app_iff in Hi as [Hi|Hi];
      [exact (Hout1 args Hi) | exact (Hout2 args Hi)].
Qed.

(** A read through a handle that completes has its completion callback
    called exactly once over the whole run: not while the request waits,
    once at the delivery, and never again afterwards, a second delivery at
    the same address included, unless a later request hands it in again. *)
Theorem read_completion_called_once (s : t) (deck : DeckMemory.t)
    (B R len : Z) (c : callback) (fcb : option callback)
    (es1 es2 : list event) (data : list byte) :
  DeckMemory._base_address deck = Some B →
  DeckMemory.supports_read deck = true →
  DeckMemory.is_started deck = true →
  _read_complete_cb s = None →
  B + R ≠ INFO_SECTION_ADDRESS →
  unstored c s →
  fcb ≠ Some c →
  Forall (λ e, read_lane_quiet (id s) e = true ∧ supplies c e = false) es1 →
  Forall (λ e, supplies c e = false) es2 →
  calls_of c
    (run (HandleRead deck R len (Some c) fcb
          :: es1 ++ NewData (id s) (B + R) data :: es2) s).2
  = 1%nat.
Proof.
  intros HB Hread Hstarted Hidle Hne Hun Hfcb Hq1 Hs2.
  set (s1 := set_read_failed_cb fcb
               (set_read_complete_cb (Some c)
                  (set_read_base_address (Some B) s))).
  assert (step (HandleRead deck R len (Some c) fcb) s
          = (s1, [MemRead (R + B) len], Ok tt)) as Hstep.
  { subst s1. destruct s. cbn in Hidle. subst. run_method.
    rewrite Hread, Hstarted, HB. reflexivity. }
  assert (only_read_complete c s1) as Hin.
  { destruct Hun as (Hqc & _ & _ & Hwc & Hwf). repeat split; assumption. }
  destruct (run_only_read_complete c es1 s1 Hq1 Hin)
    as ((Hqc & Hrc & Hrf & Hwc & Hwf) & Hid & Hb & Hout1).
  change (HandleRead deck R len (Some c) fcb
          :: es1 ++ NewData (id s) (B + R) data :: es2)
    with ([HandleRead deck R len (Some c) fcb]
          ++ es1 ++ NewData (id s) (B + R) data :: es2).
  rewrite run_app. cbn [run]. rewrite Hstep. cbn [fst snd].
  rewrite run_app. cbn [fst snd].
  rewrite !calls_of_app. rewrite (calls_of_none c _ Hout1).
  destruct (run es1 s1).1 as [i q dm rc rf rb wc wf wb] eqn:Hs2'.
  cbn in Hqc, Hrc, Hrf, Hwc, Hwf, Hid, Hb.
  change (id s1) with (id s) in Hid. subst.
  cbn [run].
  assert (step (NewData (id s) (B + R) data)
            (mk (id s) q dm (Some c) rf (Some B) wc wf wb)
          = (mk (id s) q dm None None (Some B) wc wf wb,
             [Call c (ArgsAddrData R data)], Ok tt)) as Hdel.
  { run_method. rewrite decide_True by reflexivity.
    rewrite decide_False by exact Hne. cbn.
    replace (B + R - B) with R by lia. reflexivity. }
  rewrite Hdel.
  assert (∀ args, ¬ In (Call c args)
                      (run es2 (mk (id s) q dm None None (Some B) wc wf wb)).2)
    as Hout2.
  { apply run_unstored; [exact Hs2|]. repeat split; try done. }
  destruct (run es2 _) as [s4 out4]. cbn [fst snd] in Hout2 |- *.
  rewrite calls_of_app, (calls_of_none c out4 Hout2).
  unfold calls_of. cbn. rewrite bool_decide_eq_true_2 by reflexivity.
  reflexivity.
Qed.

Lemma read_completion_called_once_witness :
  let deck :=
    {| DeckMemory.required_hash := Some 0; DeckMemory.required_length := Some 0;
       DeckMemory.name := Some []; DeckMemory._base_address := Some 0x1000;
       DeckMemory._bit_field := 0x0F |} in
  calls_of 1%nat
    (run (HandleRead deck 0x10 4 (Some 1%nat) (Some 2%nat)
          :: [QueryDecks (Some 3%nat); Read (Some 0) 4 4 (Some 4%nat) None]
          ++ NewData 7 0x1010 [x01; x02; x03; x04]
          :: [NewData 7 0x1010 [x01; x02; x03; x04]; NewDataFailed 7 0x1010 []])
       (init 7)).2
  = 1%nat.
Proof.
  cbv zeta.
  apply (read_completion_called_once (init 7) _ 0x1000 0x10 4 1%nat
           (Some 2%nat));
    [reflexivity | reflexivity | reflexivity | reflexivity | discriminate
    | repeat split; discriminate | discriminate | | ];
    repeat constructor.
Defined.

(** *** Dispatch of reads and writes *)

Lemma handle_read_dispatch (deck : DeckMemory.t) (s : t) (B address len : Z)
    (ccb fcb : option callback) :
  DeckMemory.supports_read deck = true →
  DeckMemory.is_started deck = true →
  DeckMemory._base_address deck = Some B →
  _read_complete_cb s = None →
  step (HandleRead deck address len ccb fcb) s
  = (mk (id s) (_query_complete_cb s) (deck_memories s)
        ccb fcb (Some B)
        (_write_complete_cb s) (_write_failed_cb s) (_write_base_address s),
     [MemRead (address + B) len], Ok tt).
Proof.
  intros Hr Hs HB Hidle. destruct s. cbn in Hidle. subst.
  run_method. rewrite Hr, Hs, HB. reflexivity.
Qed.

Lemma write_done_relative_to_read_base_witness :
  (run [Write (Some 0x1000) 0x10 [x01] (Some 1%nat) None; WriteDone 7 0x1010]
     (set_read_base_address (Some 0x1000) (init 7))).2
  = [MemWrite 0x1010 [x01] true; LogDebug "Write data done";
     Call 1%nat (ArgsAddr 0x10)].
Proof.
  exact (write_done_relative_to_read_base
           (set_read_base_address (Some 0x1000) (init 7))
           0x1000 0x1000 0x10 [x01] 1%nat None eq_refl eq_refl).
Defined.

End LaneClaims.

(** ** The layout of the info section *)

Section LayoutProperties.
Import DeckMemoryManager Layout.

Lemma byte_val_range (b : byte) : 0 ≤ byte_val b < 256.
Proof.
  unfold byte_val. pose proof (Byte.to_N_bounded b). lia.
Qed.

Lemma lor_shiftl_add (a b n : Z) :
  0 ≤ n → 0 ≤ a < 2 ^ n → Z.lor a (Z.shiftl b n) = a + b * 2 ^ n.
Proof.
  intros Hn Ha. rewrite <- Z.shiftl_mul_pow2 by exact Hn.
  rewrite <- Z.add_lor_land.
  assert (Z.land a (Z.shiftl b n) = 0) as ->; [|lia].
  apply Z.bits_inj'. intros m Hm.
  rewrite Z.land_spec, Z.bits_0.
  destruct (Z.lt_ge_cases m n) as [Hlt|Hge].
  - rewrite Z.shiftl_spec_low by exact Hlt. apply andb_false_r.
  - assert (Z.testbit a m = false) as ->; [|reflexivity].
    destruct (Z.eq_dec a 0) as [->|Hnz]; [apply Z.bits_0|].
    apply Z.bits_above_log2; [lia|].
    apply Z.log2_lt_pow2; [lia|].
    apply Z.lt_le_trans with (2 ^ n); [lia|].
    apply Z.pow_le_mono_r; lia.
Qed.

(** The word [struct] unpacks for ['<L'] is the little-endian value of its
    four bytes. *)
Lemma u32_le_value (b0 b1 b2 b3 : byte) :
  u32_le b0 b1 b2 b3 = le_value [b0; b1; b2; b3].
Proof.
  unfold u32_le, le_value. cbn [foldr].
  pose proof (byte_val_range b0). pose proof (byte_val_range b1).
  pose proof (byte_val_range b2). pose proof (byte_val_range b3).
  change 24 with (8 + 16) at 1. change 16 with (8 + 8).
  rewrite <- !Z.shiftl_shiftl by lia. rewrite <- !Z.shiftl_lor.
  rewrite !lor_shiftl_add; lia.
Qed.

Lemma le_value_range (bs : list byte) :
  0 ≤ le_value bs < 256 ^ Z.of_nat (length bs).
Proof.
  induction bs as [|b bs IH]; [cbn; lia|].
  cbn [le_value foldr length]. fold (le_value bs).
  pose proof (byte_val_range b).
  rewrite Nat2Z.inj_succ, Z.pow_succ_r by lia. lia.
Qed.

Lemma flag_testbit (k : Z) (self : DeckMemory.t) :
  0 ≤ k →
  DeckMemory.flag (2 ^ k) self = Z.testbit (DeckMemory._bit_field self) k.
Proof.
  intros Hk. unfold DeckMemory.flag.
  destruct (Z.testbit (DeckMemory._bit_field self) k) eqn:Hbit.
  - apply negb_true_iff, Z.eqb_neq. intros Hz.
    apply (f_equal (λ z, Z.testbit z k)) in Hz.
    rewrite Z.land_spec, Hbit, Z.pow2_bits_true, Z.bits_0 in Hz by exact Hk.
    discriminate Hz.
  - apply negb_false_iff, Z.eqb_eq. apply Z.bits_inj'. intros m Hm.
    rewrite Z.land_spec, Z.bits_0, Z.pow2_bits_eqb by exact Hk.
    destruct (Z.eqb_spec k m) as [->|_]; [rewrite Hbit|..];
      [reflexivity | apply andb_false_r].
Qed.

(** Each of the seven flag properties reads one bit of the flag byte and
    nothing else: bit 0 valid, bit 1 started, bit 2 supports read, bit 3
    supports write, bit 4 supports upgrade, bit 5 upgrade required, bit 6
    bootloader active. *)
Theorem flags_are_bits (self : DeckMemory.t) :
  let bit := Z.testbit (DeckMemory._bit_field self) in
  DeckMemory.is_valid self = bit 0
  ∧ DeckMemory.is_started self = bit 1
  ∧ DeckMemory.supports_read self = bit 2
  ∧ DeckMemory.supports_write self = bit 3
  ∧ DeckMemory.supports_fw_upgrade self = bit 4
  ∧ DeckMemory.is_fw_upgrade_required self = bit 5
  ∧ DeckMemory.is_bootloader_active self = bit 6.
Proof.
  cbv zeta. repeat split.
  - exact (flag_testbit 0 self ltac:(lia)).
  - exact (flag_testbit 1 self ltac:(lia)).
  - exact (flag_testbit 2 self ltac:(lia)).
  - exact (flag_testbit 3 self ltac:(lia)).
  - exact (flag_testbit 4 self ltac:(lia)).
  - exact (flag_testbit 5 self ltac:(lia)).
  - exact (flag_testbit 6 self ltac:(lia)).
Qed.

(** *** What the decoder returns *)

(** A piece of a slot is the matching piece of the buffer. *)
Lemma slot_piece (data : list byte) (i a b : nat) :
  (a ≤ b ≤ SIZE_OF_DECK_MEM_INFO)%nat →
  take (b - a) (drop a (slice data (slot_start i)
                          (slot_start i + SIZE_OF_DECK_MEM_INFO)))
  = field data i a b.
Proof.
  unfold field, slice, SIZE_OF_DECK_MEM_INFO. intros Hab.
  replace (slot_start i + 32 - slot_start i)%nat with (a + (32 - a))%nat by lia.
  rewrite <- take_drop_commute, take_take, drop_drop.
  f_equal; lia.
Qed.

(** What [_parse] makes of a slot of the full size, by offsets. *)
Lemma parse_slot_by_offsets (sl : list byte) :
  length sl = SIZE_OF_DECK_MEM_INFO →
  DeckMemory._parse DeckMemory.init sl
  = if Z.testbit (le_value (take 1 sl)) 0 then
      nm ← utf8_decode (split_nul_first (take 19 (drop 13 sl)));
      Ok {| DeckMemory.required_hash := Some (le_value (take 4 (drop 1 sl)));
            DeckMemory.required_length := Some (le_value (take 4 (drop 5 sl)));
            DeckMemory.name := Some nm;
            DeckMemory._base_address := Some (le_value (take 4 (drop 9 sl)));
            DeckMemory._bit_field := le_value (take 1 sl) |}
    else Ok (DeckMemory.set_bit_field (le_value (take 1 sl)) DeckMemory.init).
Proof.
  unfold SIZE_OF_DECK_MEM_INFO. intros Hlen.
  do 13 (destruct sl as [|? sl]; [discriminate Hlen|]).
  cbn [length] in Hlen.
  assert (le_value [b] = byte_val b) as Hflag by (cbn; lia).
  unfold DeckMemory._parse, slice.
  cbn [drop take Nat.sub unpack_B mbind result_bind].
  rewrite !take_0, Hflag, drop_0. rewrite (take_ge sl 19) by lia.
  pose proof (flag_testbit 0
                (DeckMemory.set_bit_field (byte_val b) DeckMemory.init)
                ltac:(lia)) as Hv.
  change (DeckMemory.flag (2 ^ 0)) with DeckMemory.is_valid in Hv.
  cbn [DeckMemory._bit_field DeckMemory.set_bit_field] in Hv.
  rewrite <- Hv. clear Hv.
  destruct (DeckMemory.is_valid _); [|reflexivity].
  unfold unpack_LLL19s.
  destruct (decide (length sl = 19%nat)) as [Hs|Hs]; [|lia].
  rewrite !u32_le_value. reflexivity.
Qed.

(** The entry the loop leaves at an index: that of the last valid parse of
    its slot, else what was there before. *)
Lemma parse_decks_lookup (data : list byte) (indexes : list nat)
    (acc decks : gmap nat DeckMemory.t) (k : nat) :
  parse_decks data indexes acc = Ok decks →
  decks !! k
  = match DeckMemory._parse DeckMemory.init
            (slice data (slot_start k) (slot_start k + SIZE_OF_DECK_MEM_INFO))
    with
    | Ok d => if bool_decide (k ∈ indexes) && DeckMemory.is_valid d
              then Some d else acc !! k
    | Raise _ => acc !! k
    end
  ∧ (k ∈ indexes →
     ∃ d, DeckMemory._parse DeckMemory.init
            (slice data (slot_start k) (slot_start k + SIZE_OF_DECK_MEM_INFO))
          = Ok d).
Proof.
  revert acc. induction indexes as [|i rest IH]; intros acc Hrun.
  - cbn in Hrun. injection Hrun as <-. split.
    + destruct (DeckMemory._parse _ _); reflexivity.
    + intros Hin. apply elem_of_nil in Hin as [].
  - cbn [parse_decks] in Hrun. fold (slot_start i) in Hrun.
    destruct (DeckMemory._parse DeckMemory.init
                (slice data (slot_start i)
                   (slot_start i + SIZE_OF_DECK_MEM_INFO))) as [d|e] eqn:Hi;
      [|discriminate Hrun].
    cbn [mbind result_bind] in Hrun.
    destruct (IH _ Hrun) as [Hlook Hok]. split.
    + rewrite Hlook. clear Hlook.
      destruct (decide (k = i)) as [->|Hne].
      * rewrite Hi.
        rewrite (bool_decide_eq_true_2 (i ∈ i :: rest))
          by apply list_elem_of_here.
        destruct (DeckMemory.is_valid d); [|rewrite andb_false_r; reflexivity].
        rewrite andb_true_r. case_bool_decide; [reflexivity|].
        apply lookup_insert_eq.
      * assert (bool_decide (k ∈ i :: rest) = bool_decide (k ∈ rest)) as ->.
        { apply bool_decide_ext. rewrite elem_of_cons. tauto. }
        assert ((if DeckMemory.is_valid d then <[i:=d]> acc else acc) !! k
                = acc !! k) as ->; [|reflexivity].
        destruct (DeckMemory.is_valid d); [|reflexivity].
        apply lookup_insert_ne. congruence.
    + intros Hin. apply elem_of_cons in Hin as [->|Hin]; [eauto | auto].
Qed.

Lemma parse_info_section_lookup (data : list byte) (s : t)
    (decks : gmap nat DeckMemory.t) (i : nat) :
  length data = SIZE_OF_INFO_SECTION →
  (_parse_info_section data s).2 = Ok decks →
  decks !! i = slot_descriptor data i.
Proof.
  intros Hlen Hparse.
  assert (parse_decks data (seq 0 MAX_NR_OF_DECKS) ∅ = Ok decks) as Hrun.
  { unfold _parse_info_section, lift, mbind, M_bind in Hparse.
    destruct (unpack_B (slice data 0 1)) as [v|e]; [|discriminate Hparse].
    case_decide; [discriminate Hparse | exact Hparse]. }
  destruct (parse_decks_lookup data _ ∅ decks i Hrun) as [Hlook Hok].
  rewrite Hlook, lookup_empty. clear Hlook.
  unfold slot_descriptor.
  destruct (decide (i < MAX_NR_OF_DECKS)%nat) as [Hi|Hi].
  - assert (i ∈ seq 0 MAX_NR_OF_DECKS) as Hin by (apply elem_of_seq; lia).
    rewrite (bool_decide_eq_true_2 _ Hin). cbn [andb].
    rewrite parse_slot_by_offsets.
    2:{ unfold slice, SIZE_OF_DECK_MEM_INFO, slot_start, SIZE_OF_VERSION,
          SIZE_OF_DECK_MEM_INFO.
        rewrite length_take, length_drop, Hlen.
        unfold SIZE_OF_INFO_SECTION, MAX_NR_OF_DECKS, SIZE_OF_VERSION,
          SIZE_OF_DECK_MEM_INFO in *. lia. }
    change (take 1 ?x) with (take (1 - 0) (drop 0 x)).
    change (take 4 (drop 1 ?x)) with (take (5 - 1) (drop 1 x)).
    change (take 4 (drop 5 ?x)) with (take (9 - 5) (drop 5 x)).
    change (take 4 (drop 9 ?x)) with (take (13 - 9) (drop 9 x)).
    change (take 19 (drop 13 ?x)) with (take (32 - 13) (drop 13 x)).
    rewrite !slot_piece by (unfold SIZE_OF_DECK_MEM_INFO; lia).
    destruct (Z.testbit (le_value (field data i 0 1)) 0) eqn:Hbit.
    + destruct (utf8_decode _) as [nm|e]; cbn [mbind result_bind];
        [|reflexivity].
      unfold DeckMemory.is_valid.
      rewrite (flag_testbit 0) by lia. cbn [DeckMemory._bit_field].
      rewrite Hbit. reflexivity.
    + unfold DeckMemory.is_valid.
      rewrite (flag_testbit 0) by lia.
      cbn [DeckMemory._bit_field DeckMemory.set_bit_field].
      rewrite Hbit. reflexivity.
  - rewrite bool_decide_eq_false_2; [destruct (DeckMemory._parse _ _); reflexivity|].
    rewrite elem_of_seq. lia.
Qed.

(** The decoder against the layout: when it returns, on a buffer of the info
    section size, the entry at every index is the one the layout gives: the
    flag byte at offset 0 of the slot, the hash, the length and the base
    address as little-endian words at offsets 1, 5 and 9, and the name from
    the 19 bytes at offset 13; no entry for a slot with bit 0 clear and none
    outside the four slots. *)
Theorem decoded_entries (data : list byte) (s : t)
    (decks : gmap nat DeckMemory.t) (i : nat) :
  length data = SIZE_OF_INFO_SECTION →
  (_parse_info_section data s).2 = Ok decks →
  decks !! i = slot_descriptor data i.
Proof. exact (parse_info_section_lookup data s decks i). Qed.

Lemma decoded_entries_witness :
  ∃ decks,
    (_parse_info_section lighthouse_section (init 7)).2 = Ok decks
    ∧ decks !! 0%nat = slot_descriptor lighthouse_section 0
    ∧ slot_descriptor lighthouse_section 0
      = Some {| DeckMemory.required_hash := Some 0xAABBCCDD;
                DeckMemory.required_length := Some 1024;
                DeckMemory.name := Some (str_literal "bcLighthouse4");
                DeckMemory._base_address := Some 0x2000;
                DeckMemory._bit_field := 0x0F |}
    ∧ decks !! 1%nat = None.
Proof.
  destruct (_parse_info_section lighthouse_section (init 7)).2
    as [decks|e] eqn:Hparse; [|vm_compute in Hparse; discriminate Hparse].
  exists decks. split; [reflexivity|].
  split;
    [exact (decoded_entries lighthouse_section (init 7) decks 0 eq_refl Hparse)|].
  split; [vm_compute; reflexivity|].
  rewrite (decoded_entries lighthouse_section (init 7) decks 1 eq_refl Hparse).
  vm_compute. reflexivity.
Defined.

(** *** When the decoder returns *)

Lemma field_length (data : list byte) (i a b : nat) :
  length data = SIZE_OF_INFO_SECTION → (i < MAX_NR_OF_DECKS)%nat →
  (a ≤ b ≤ SIZE_OF_DECK_MEM_INFO)%nat →
  length (field data i a b) = (b - a)%nat.
Proof.
  unfold field, slice, slot_start, SIZE_OF_INFO_SECTION, MAX_NR_OF_DECKS,
    SIZE_OF_VERSION, SIZE_OF_DECK_MEM_INFO.
  intros Hlen Hi Hab. rewrite length_take, length_drop. lia.
Qed.

Lemma slot_length (data : list byte) (i : nat) :
  length data = SIZE_OF_INFO_SECTION → (i < MAX_NR_OF_DECKS)%nat →
  length (slice data (slot_start i) (slot_start i + SIZE_OF_DECK_MEM_INFO))
  = SIZE_OF_DECK_MEM_INFO.
Proof.
  intros Hlen Hi.
  pose proof (field_length data i 0 SIZE_OF_DECK_MEM_INFO Hlen Hi
                ltac:(unfold SIZE_OF_DECK_MEM_INFO; lia)) as H.
  unfold field in H. rewrite Nat.add_0_r, Nat.sub_0_r in H. exact H.
Qed.

(** A slot of the full size parses unless its valid bit is set and its
    name does not decode. *)
Lemma parse_slot_returns (data : list byte) (i : nat) :
  length data = SIZE_OF_INFO_SECTION → (i < MAX_NR_OF_DECKS)%nat →
  (∃ d, DeckMemory._parse DeckMemory.init
          (slice data (slot_start i) (slot_start i + SIZE_OF_DECK_MEM_INFO))
        = Ok d)
  ↔ (Z.testbit (le_value (field data i 0 1)) 0 = true →
     ∃ nm, utf8_decode (split_nul_first (field data i 13 32)) = Ok nm).
Proof.
  intros Hlen Hi.
  rewrite parse_slot_by_offsets by (apply slot_length; assumption).
  change (take 1 ?x) with (take (1 - 0) (drop 0 x)).
  change (take 19 (drop 13 ?x)) with (take (32 - 13) (drop 13 x)).
  rewrite !slot_piece by (unfold SIZE_OF_DECK_MEM_INFO; lia).
  destruct (Z.testbit (le_value (field data i 0 1)) 0).
  - destruct (utf8_decode _) as [nm|e]; cbn [mbind result_bind]; split.
    + eauto.
    + eauto.
    + intros [d Hd]. discriminate Hd.
    + intros H. destruct (H eq_refl) as [nm Hnm]. discriminate Hnm.
  - split; [intros _ Hf; discriminate Hf | eauto].
Qed.

Lemma parse_decks_returns (data : list byte) (indexes : list nat)
    (acc : gmap nat DeckMemory.t) :
  (∀ k, k ∈ indexes →
        ∃ d, DeckMemory._parse DeckMemory.init
               (slice data (slot_start k)
                  (slot_start k + SIZE_OF_DECK_MEM_INFO)) = Ok d) →
  ∃ decks, parse_decks data indexes acc = Ok decks.
Proof.
  revert acc. induction indexes as [|i rest IH]; intros acc Hall.
  - exists acc. reflexivity.
  - destruct (Hall i (list_elem_of_here _ _)) as [d Hd].
    cbn [parse_decks]. fold (slot_start i). rewrite Hd.
    cbn [mbind result_bind]. apply IH.
    intros k Hk. apply Hall. apply list_elem_of_further. exact Hk.
Qed.

Lemma parse_info_section_returns_iff (data : list byte) (s : t) :
  length data = SIZE_OF_INFO_SECTION →
  byte_val <$> data !! 0%nat = Some SUPPORTED_VERSION →
  (∃ decks, _parse_info_section data s = (s, [], Ok decks))
  ↔ (∀ i, (i < MAX_NR_OF_DECKS)%nat →
          Z.testbit (le_value (field data i 0 1)) 0 = true →
          ∃ nm, utf8_decode (split_nul_first (field data i 13 32)) = Ok nm).
Proof.
  intros Hlen Hver.
  assert (_parse_info_section data s
          = (s, [], parse_decks data (seq 0 MAX_NR_OF_DECKS) ∅)) as ->.
  { destruct data as [|v rest]; [discriminate Hlen|].
    injection Hver as Hver.
    unfold _parse_info_section, lift, mbind, M_bind, slice.
    cbn [drop Nat.sub take unpack_B]. rewrite take_0, Hver.
    destruct (decide (SUPPORTED_VERSION ≠ SUPPORTED_VERSION)) as [Hne|_];
      [contradiction | reflexivity]. }
  split.
  - intros [decks Hrun] i Hi. apply (f_equal snd) in Hrun. cbn [snd] in Hrun.
    apply (parse_slot_returns data i Hlen Hi).
    apply (parse_decks_lookup data _ ∅ decks i Hrun).
    apply elem_of_seq. lia.
  - intros Hnames.
    destruct (parse_decks_returns data (seq 0 MAX_NR_OF_DECKS) ∅) as [decks ->];
      [|eauto].
    intros k Hk. apply elem_of_seq in Hk.
    apply (parse_slot_returns data k Hlen); [lia|].
    apply Hnames. lia.
Qed.

(** On a buffer of the info section size with the supported version byte,
    the decoder returns a mapping exactly when the name of every slot with
    the valid bit set is UTF-8 up to its first NUL byte; the other bytes
    never make it raise. *)
Theorem decoder_returns_iff (data : list byte) (s : t) :
  length data = SIZE_OF_INFO_SECTION →
  byte_val <$> data !! 0%nat = Some SUPPORTED_VERSION →
  (∃ decks, _parse_info_section data s = (s, [], Ok decks))
  ↔ (∀ i, (i < MAX_NR_OF_DECKS)%nat →
          Z.testbit (le_value (field data i 0 1)) 0 = true →
          ∃ nm, utf8_decode (split_nul_first (field data i 13 32)) = Ok nm).
Proof. exact (parse_info_section_returns_iff data s). Qed.

Lemma decoder_returns_iff_witness :
  (∃ decks, _parse_info_section lighthouse_section (init 7)
            = (init 7, [], Ok decks))
  ∧ ∃ nm, utf8_decode (split_nul_first (field lighthouse_section 0 13 32))
          = Ok nm.
Proof.
  pose proof (decoder_returns_iff lighthouse_section (init 7) eq_refl eq_refl)
    as [Hto Hfrom].
  assert (∃ decks, _parse_info_section lighthouse_section (init 7)
                   = (init 7, [], Ok decks)) as Hret.
  { eexists. vm_compute. reflexivity. }
  split; [exact Hret|].
  apply (Hto Hret 0%nat); [vm_compute; lia | vm_compute; reflexivity].
Defined.

(** *** The shape of a decoded descriptor *)

Lemma split_nul_first_length (b : list byte) :
  (length (split_nul_first b) ≤ length b)%nat.
Proof.
  induction b as [|x r IH]; [reflexivity|].
  cbn [split_nul_first]. destruct (Byte.eqb x x00); cbn [length]; lia.
Qed.

Lemma utf8_decode_length_le (n : nat) (bs : list byte) (cs : list Z) :
  (length bs ≤ n)%nat → utf8_decode bs = Ok cs →
  (length cs ≤ length bs)%nat.
Proof.
  revert bs cs. induction n as [|n IH]; intros bs cs Hlen Hdec.
  - destruct bs; [injection Hdec as <-; reflexivity | cbn in Hlen; lia].
  - destruct bs as [|b0 r0]; [injection Hdec as <-; reflexivity|].
    cbn [length] in Hlen. cbn [utf8_decode] in Hdec. cbv zeta in Hdec.
    repeat case_match; try discriminate Hdec; subst;
      match type of Hdec with
      | (utf8_decode ?r ≫= _) = Ok _ =>
          destruct (utf8_decode r) as [cs'|] eqn:E; [|discriminate Hdec];
          cbn [mbind result_bind] in Hdec; injection Hdec as <-;
          apply IH in E; cbn [length] in *; lia
      end.
Qed.

(** A decoded descriptor is complete and in range: it sits at one of the
    four indexes, its valid flag is set, its flag byte is a byte, its hash,
    length and base address are present and are unsigned 32-bit numbers,
    and its name is present and has at most 19 characters. *)
Theorem decoded_descriptor_shape (data : list byte) (s : t)
    (decks : gmap nat DeckMemory.t) (i : nat) (d : DeckMemory.t) :
  length data = SIZE_OF_INFO_SECTION →
  (_parse_info_section data s).2 = Ok decks →
  decks !! i = Some d →
  (i < MAX_NR_OF_DECKS)%nat
  ∧ DeckMemory.is_valid d = true
  ∧ 0 ≤ DeckMemory._bit_field d < 256
  ∧ ∃ h l a nm,
      DeckMemory.required_hash d = Some h ∧ 0 ≤ h < 2 ^ 32
      ∧ DeckMemory.required_length d = Some l ∧ 0 ≤ l < 2 ^ 32
      ∧ DeckMemory._base_address d = Some a ∧ 0 ≤ a < 2 ^ 32
      ∧ DeckMemory.name d = Some nm ∧ (length nm ≤ 19)%nat.
Proof.
  intros Hlen Hparse Hd.
  rewrite (parse_info_section_lookup data s decks i Hlen Hparse) in Hd.
  unfold slot_descriptor in Hd.
  destruct (decide (i < MAX_NR_OF_DECKS)%nat) as [Hi|Hi]; [|discriminate Hd].
  destruct (Z.testbit (le_value (field data i 0 1)) 0) eqn:Hbit;
    [|discriminate Hd].
  destruct (utf8_decode (split_nul_first (field data i 13 32)))
    as [nm|e] eqn:Hnm; [|discriminate Hd].
  injection Hd as <-.
  assert (∀ a b, (a ≤ b ≤ SIZE_OF_DECK_MEM_INFO)%nat →
                 0 ≤ le_value (field data i a b) < 256 ^ Z.of_nat (b - a))
    as Hrange.
  { intros a b Hab. rewrite <- (field_length data i a b Hlen Hi Hab).
    apply le_value_range. }
  split; [exact Hi|]. split.
  { unfold DeckMemory.is_valid. rewrite (flag_testbit 0) by lia. exact Hbit. }
  split.
  { exact (Hrange 0%nat 1%nat ltac:(unfold SIZE_OF_DECK_MEM_INFO; lia)). }
  eexists _, _, _, nm. cbn.
  split; [reflexivity|]. split.
  { exact (Hrange 1%nat 5%nat ltac:(unfold SIZE_OF_DECK_MEM_INFO; lia)). }
  split; [reflexivity|]. split.
  { exact (Hrange 5%nat 9%nat ltac:(unfold SIZE_OF_DECK_MEM_INFO; lia)). }
  split; [reflexivity|]. split.
  { exact (Hrange 9%nat 13%nat ltac:(unfold SIZE_OF_DECK_MEM_INFO; lia)). }
  split; [reflexivity|].
  apply (utf8_decode_length_le _ _ _ (Nat.le_refl _)) in Hnm.
  pose proof (split_nul_first_length (field data i 13 32)) as Hsplit.
  rewrite (field_length data i 13 32 Hlen Hi) in Hsplit
    by (unfold SIZE_OF_DECK_MEM_INFO; lia).
  lia.
Qed.

Lemma decoded_descriptor_shape_witness :
  ∃ decks d,
    (_parse_info_section lighthouse_section (init 7)).2 = Ok decks
    ∧ decks !! 0%nat = Some d
    ∧ DeckMemory.is_valid d = true
    ∧ ∃ a, DeckMemory._base_address d = Some a ∧ 0 ≤ a < 2 ^ 32.
Proof.
  destruct (_parse_info_section lighthouse_section (init 7)).2
    as [decks|e] eqn:Hparse; [|vm_compute in Hparse; discriminate Hparse].
  destruct (decks !! 0%nat) as [d|] eqn:Hd.
  - exists decks, d. split; [reflexivity|]. split; [exact Hd|].
    destruct (decoded_descriptor_shape lighthouse_section (init 7) decks 0 d
                eq_refl Hparse Hd)
      as (_ & Hvalid & _ & h & l & a & nm & _ & _ & _ & _ & Ha & Hra & _).
    split; [exact Hvalid|]. exists a. split; [exact Ha | exact Hra].
  - vm_compute in Hparse. injection Hparse as <-.
    vm_compute in Hd. discriminate Hd.
Defined.

(** *** Buffers of another size *)

Lemma parse_decks_ext (data data' : list byte) (indexes : list nat)
    (acc : gmap nat DeckMemory.t) :
  (∀ k, k ∈ indexes →
        slice data (slot_start k) (slot_start k + SIZE_OF_DECK_MEM_INFO)
        = slice data' (slot_start k) (slot_start k + SIZE_OF_DECK_MEM_INFO)) →
  parse_decks data indexes acc = parse_decks data' indexes acc.
Proof.
  revert acc. induction indexes as [|i rest IH]; intros acc Hall;
    [reflexivity|].
  cbn [parse_decks]. fold (slot_start i).
  rewrite (Hall i (list_elem_of_here _ _)).
  destruct (DeckMemory._parse _ _) as [d|e]; cbn [mbind result_bind];
    [|reflexivity].
  apply IH. intros k Hk. apply Hall. apply list_elem_of_further. exact Hk.
Qed.

Lemma slice_take (data : list byte) (n a b : nat) :
  (a ≤ b ≤ n)%nat → slice (take n data) a b = slice data a b.
Proof.
  intros Hab. unfold slice.
  replace n with (a + (n - a))%nat at 1 by lia.
  rewrite <- take_drop_commute, take_take. f_equal. lia.
Qed.

(** The decoder looks at the first 129 bytes only: whatever follows the
    info section in the buffer changes neither the outcome nor the
    mapping. *)
Theorem bytes_beyond_section_ignored (data : list byte) (s : t) :
  _parse_info_section (take SIZE_OF_INFO_SECTION data) s
  = _parse_info_section data s.
Proof.
  unfold _parse_info_section.
  rewrite slice_take by (unfold SIZE_OF_INFO_SECTION; cbn; lia).
  rewrite (parse_decks_ext (take SIZE_OF_INFO_SECTION data) data);
    [reflexivity|].
  intros k Hk. apply elem_of_seq in Hk. apply slice_take.
  unfold slot_start, SIZE_OF_INFO_SECTION, MAX_NR_OF_DECKS, SIZE_OF_VERSION,
    SIZE_OF_DECK_MEM_INFO in *. lia.
Qed.

(** A buffer too short to hold the flag byte of the fourth slot, that is
    one of fewer than 98 bytes, never decodes: whatever it holds, the
    decoder raises and returns no mapping. *)
Theorem short_buffer_raises (data : list byte) (s : t) :
  (length data ≤ slot_start 3)%nat →
  ∃ e, _parse_info_section data s = (s, [], Raise e).
Proof.
  intros Hlen. destruct (parse_info_section_pure data) as [r Hr].
  destruct r as [decks|e]; [exfalso | exists e; apply Hr].
  assert (parse_decks data (seq 0 MAX_NR_OF_DECKS) ∅ = Ok decks) as Hrun.
  { specialize (Hr s).
    unfold _parse_info_section, lift, mbind, M_bind in Hr.
    destruct (unpack_B (slice data 0 1)) as [v|e]; [|discriminate Hr].
    case_decide; [discriminate Hr|].
    apply (f_equal snd) in Hr. exact Hr. }
  destruct (proj2 (parse_decks_lookup data _ ∅ decks 3 Hrun)) as [d Hd].
  { apply elem_of_seq. unfold MAX_NR_OF_DECKS. lia. }
  unfold slice in Hd. rewrite (drop_ge data (slot_start 3)) in Hd by exact Hlen.
  rewrite take_nil in Hd. discriminate Hd.
Qed.

Lemma short_buffer_raises_witness :
  _parse_info_section (x01 :: replicate 96 x00) (init 7)
  = (init 7, [], Raise StructError)
  ∧ _parse_info_section (x01 :: replicate 97 x00) (init 7)
    = (init 7, [], Ok ∅).
Proof.
  split; [|vm_compute; reflexivity].
  destruct (short_buffer_raises (x01 :: replicate 96 x00) (init 7)
              ltac:(vm_compute; lia)) as [e He].
  rewrite He. vm_compute in He. injection He as <-. reflexivity.
Defined.

(** *** Names in ASCII *)

Lemma utf8_decode_ascii (bs : list byte) :
  Forall (λ b, byte_val b < 0x80) bs →
  utf8_decode bs = Ok (map byte_val bs).
Proof.
  induction 1 as [|b bs Hb _ IH]; [reflexivity|].
  cbn [utf8_decode map]. cbv zeta.
  rewrite (proj2 (Z.ltb_lt _ _) Hb), IH. reflexivity.
Qed.

Lemma split_nul_first_Forall (P : byte → Prop) (b : list byte) :
  Forall P b → Forall P (split_nul_first b).
Proof.
  induction 1 as [|x r Hx _ IH]; [constructor|].
  cbn [split_nul_first]. destruct (Byte.eqb x x00); constructor; assumption.
Qed.

(** When the name field of every slot holds ASCII only, a buffer of the
    info section size with the supported version byte always decodes, and
    the name of each entry is, character by character, the bytes of its
    name field before the first NUL. *)
Theorem ascii_names_decode (data : list byte) (s : t) :
  length data = SIZE_OF_INFO_SECTION →
  byte_val <$> data !! 0%nat = Some SUPPORTED_VERSION →
  (∀ i, (i < MAX_NR_OF_DECKS)%nat →
        Forall (λ b, byte_val b < 0x80) (field data i 13 32)) →
  ∃ decks,
    _parse_info_section data s = (s, [], Ok decks)
    ∧ ∀ i d, decks !! i = Some d →
             DeckMemory.name d
             = Some (map byte_val (split_nul_first (field data i 13 32))).
Proof.
  intros Hlen Hver Hascii.
  assert (∀ i, (i < MAX_NR_OF_DECKS)%nat →
               utf8_decode (split_nul_first (field data i 13 32))
               = Ok (map byte_val (split_nul_first (field data i 13 32))))
    as Hdec.
  { intros i Hi. apply utf8_decode_ascii, split_nul_first_Forall, Hascii, Hi. }
  destruct (proj2 (parse_info_section_returns_iff data s Hlen Hver))
    as [decks Hdecks]; [eauto|].
  exists decks. split; [exact Hdecks|].
  intros i d Hd.
  rewrite (parse_info_section_lookup data s decks i Hlen) in Hd
    by (rewrite Hdecks; reflexivity).
  unfold slot_descriptor in Hd.
  destruct (decide (i < MAX_NR_OF_DECKS)%nat) as [Hi|Hi]; [|discriminate Hd].
  destruct (Z.testbit _ 0); [|discriminate Hd].
  rewrite (Hdec i Hi) in Hd. injection Hd as <-. reflexivity.
Qed.

Lemma ascii_names_decode_witness :
  ∃ decks d,
    _parse_info_section lighthouse_section (init 7) = (init 7, [], Ok decks)
    ∧ decks !! 0%nat = Some d
    ∧ DeckMemory.name d = Some (str_literal "bcLighthouse4").
Proof.
  destruct (ascii_names_decode lighthouse_section (init 7) eq_refl eq_refl)
    as (decks & Hdecks & Hnames).
  - intros i Hi.
    assert (i = 0 ∨ i = 1 ∨ i = 2 ∨ i = 3)%nat as [->|[->|[->| ->]]]
      by (unfold MAX_NR_OF_DECKS in Hi; lia);
      vm_compute; repeat constructor.
  - destruct (decks !! 0%nat) as [d|] eqn:Hd.
    + exists decks, d. split; [exact Hdecks|]. split; [exact Hd|].
      rewrite (Hnames 0%nat d Hd). vm_compute. reflexivity.
    + vm_compute in Hdecks. injection Hdecks as <-.
      vm_compute in Hd. discriminate Hd.
Defined.

End LayoutProperties.

(** ** From the info section to the memory handler *)

Section DecodedHandles.
Import DeckMemoryManager Machine Layout.

(** A handle taken from a decoded map always carries a base address, so a
    read or a write through it, once past the two gates and on an idle
    lane, is always dispatched: the memory handler is called at the
    little-endian word found at offset 9 of the deck's slot plus the
    address given, and nothing raises. *)
Theorem decoded_handle_dispatches (data : list byte) (s0 s : t)
    (decks : gmap nat DeckMemory.t) (i : nat) (d : DeckMemory.t)
    (address len : Z) (payload : list byte) (ccb fcb : option callback) :
  length data = SIZE_OF_INFO_SECTION →
  (_parse_info_section data s0).2 = Ok decks →
  decks !! i = Some d →
  DeckMemory.is_started d = true →
  (DeckMemory.supports_read d = true → _read_complete_cb s = None →
   (step (HandleRead d address len ccb fcb) s).1.2
   = [MemRead (address + le_value (field data i 9 13)) len]
   ∧ (step (HandleRead d address len ccb fcb) s).2 = Ok tt)
  ∧ (DeckMemory.supports_write d = true → _write_complete_cb s = None →
     (step (HandleWrite d address payload ccb fcb) s).1.2
     = [MemWrite (address + le_value (field data i 9 13)) payload true]
     ∧ (step (HandleWrite d address payload ccb fcb) s).2 = Ok tt).
Proof.
  intros Hlen Hparse Hd Hstarted.
  assert (DeckMemory._base_address d = Some (le_value (field data i 9 13)))
    as Hbase.
  { rewrite (parse_info_section_lookup data s0 decks i Hlen Hparse) in Hd.
    unfold slot_descriptor in Hd.
    repeat case_match; try discriminate Hd. injection Hd as <-. reflexivity. }
  split.
  - intros Hread Hidle.
    rewrite (handle_read_dispatch d s _ address len ccb fcb
               Hread Hstarted Hbase Hidle).
    split; reflexivity.
  - intros Hwrite Hidle.
    rewrite (handle_write_dispatch_gen d s _ address payload ccb fcb
               Hwrite Hstarted Hbase Hidle).
    split; reflexivity.
Qed.

Lemma decoded_handle_dispatches_witness :
  ∃ decks d,
    (_parse_info_section lighthouse_section (init 7)).2 = Ok decks
    ∧ decks !! 0%nat = Some d
    ∧ (step (HandleRead d 0x10 4 (Some 1%nat) None) (init 7)).1.2
      = [MemRead 0x2010 4]
    ∧ (step (HandleWrite d 0x10 [x01] (Some 1%nat) None) (init 7)).1.2
      = [MemWrite 0x2010 [x01] true].
Proof.
  destruct (_parse_info_section lighthouse_section (init 7)).2
    as [decks|e] eqn:Hparse; [|vm_compute in Hparse; discriminate Hparse].
  destruct (decks !! 0%nat) as [d|] eqn:Hd.
  - exists decks, d. split; [reflexivity|]. split; [exact Hd|].
    assert (DeckMemory._bit_field d = 0x0F) as Hbits.
    { vm_compute in Hparse. injection Hparse as <-.
      vm_compute in Hd. injection Hd as <-. reflexivity. }
    assert (∀ m, DeckMemory.flag m d = negb (Z.land 0x0F m =? 0)) as Hflag.
    { intros m. unfold DeckMemory.flag. rewrite Hbits. reflexivity. }
    destruct (decoded_handle_dispatches lighthouse_section (init 7) (init 7)
                decks 0 d 0x10 4 [x01] (Some 1%nat) None eq_refl Hparse Hd
                (Hflag _)) as [Hr Hw].
    destruct (Hr (Hflag _) eq_refl) as [Hr1 _].
    destruct (Hw (Hflag _) eq_refl) as [Hw1 _].
    split; [exact Hr1 | exact Hw1].
  - vm_compute in Hparse. injection Hparse as <-.
    vm_compute in Hd. discriminate Hd.
Defined.

End DecodedHandles.
